(** * Galaxy Night Sky (script.js): a shallow embedding and its properties

    The animation script is a single module with global scene state, a
    handful of generators driven by [Math.random], one frame callback and
    a few DOM event handlers.  The embedding follows that shape:

    - JavaScript numbers are idealised as real numbers ([R]); [NaN] and
      the infinities are outside the model, so statements that divide by
      the viewport size carry the side condition that it is positive.
      Rounding is not modelled.  Where it would decide a statement (a
      value of [rand(min, max)] that rounds up to [max] itself), the
      statement is given the form that holds for the doubles as well: a
      closed upper end.
    - [Math.random] is a stream of draws in [[0,1)] read through a cursor
      that the scene state carries along.
    - The 2D canvas is a log of drawing commands returned by the frame.
    - Each global of the script is a field of [Scene]; each handler is a
      function [Scene -> Scene]. *)

From Stdlib Require Import Reals Lra Lia List Bool Arith PeanoNat.
Import ListNotations.

Open Scope R_scope.

(** ** Comparisons on numbers as booleans *)

Definition Rltb (a b : R) : bool := if Rlt_dec a b then true else false.
Definition Rleb (a b : R) : bool := if Rle_dec a b then true else false.
Definition Rgtb (a b : R) : bool := Rltb b a.
Definition Rgeb (a b : R) : bool := Rleb b a.

(** Decide the comparisons of a goal whose operands are numerals. *)
Ltac rcompare :=
  unfold Rgtb, Rgeb, Rltb, Rleb;
  repeat match goal with
    | |- context [Rlt_dec ?a ?b] => destruct (Rlt_dec a b); try lra
    | |- context [Rle_dec ?a ?b] => destruct (Rle_dec a b); try lra
    | |- context [Req_dec_T ?a ?b] => destruct (Req_dec_T a b); try lra
    end.

(** ** The [Math] object *)

Definition Math_max (a b : R) : R := Rmax a b.
Definition Math_min (a b : R) : R := Rmin a b.
Definition Math_floor (v : R) : R := IZR (Int_part v).
Definition Math_abs (v : R) : R := Rabs v.
Definition Math_hypot (a b : R) : R := sqrt (a * a + b * b).
Definition Math_exp (v : R) : R := exp v.
Definition Math_log (v : R) : R := ln v.
Definition Math_sqrt (v : R) : R := sqrt v.
Definition Math_cos (v : R) : R := cos v.
Definition Math_sin (v : R) : R := sin v.

(** [Math.pow] on a non-negative base and a positive exponent, the only
    way the script calls it on scenes it can reach.  A negative base
    with a fractional exponent is [NaN] in JavaScript and outside the
    model: the ranges stated for the star radius carry [depth <= 1],
    and those stated for the band falloff a positive band width. *)
Definition Math_pow (b e : R) : R :=
  if Rlt_dec 0 b then Rpower b e else 0.

(** ** The random source

    [draw i] is the value of the [i]-th call of [Math.random].  The
    language guarantees a value in [[0,1)].  [gaussian] retries while a
    draw is exactly zero; [gap] bounds how long the source can stall on
    zeros from any position, which is what makes those retries end. *)

Record RandomSource : Type := {
  draw : nat -> R;
  draw_range : forall i, 0 <= draw i < 1;
  gap : nat -> nat;
  gap_nonzero : forall i, draw (i + gap i)%nat <> 0
}.

(** A source that replays the draws of a list and then returns 1/2 for
    ever; used to run the script on concrete draws. *)
Definition scripted (l : list R) : nat -> R := fun i => nth i l (1 / 2).

Definition inUnit (u : R) : Prop := 0 <= u < 1.

Definition scriptedSource (l : list R) (Hl : Forall inUnit l) : RandomSource.
Proof.
  refine {| draw := scripted l; gap := fun i => (length l - i)%nat |}.
  - intro i. unfold scripted.
    destruct (Nat.lt_ge_cases i (length l)) as [Hi | Hi].
    + rewrite Forall_forall in Hl. apply Hl. now apply nth_In.
    + rewrite nth_overflow by exact Hi. lra.
  - intro i. unfold scripted. rewrite nth_overflow by lia. lra.
Defined.

(** A source that repeats the draws 0, 1/2, 1/2 for ever. *)
Fixpoint stallDraw (i : nat) : R :=
  match i with
  | S (S (S k)) => stallDraw k
  | O => 0
  | _ => 1 / 2
  end.

Fixpoint stallGap (i : nat) : nat :=
  match i with
  | S (S (S k)) => stallGap k
  | 2%nat => 2%nat
  | _ => 1%nat
  end.

Definition stallSource : RandomSource.
Proof.
  assert (Hstep : forall P : nat -> Prop,
             P O -> P 1%nat -> P 2%nat ->
             (forall k, P k -> P (S (S (S k)))) -> forall n, P n).
  { intros P H0 H1 H2 Hs n.
    assert (H3 : P n /\ P (S n) /\ P (S (S n))).
    { induction n as [|n (Ha & Hb & Hc)]; [now repeat split|].
      repeat split; try assumption. now apply Hs. }
    apply H3. }
  refine {| draw := stallDraw; gap := stallGap |}.
  - apply Hstep; cbn; try lra. intros k Hk. exact Hk.
  - apply Hstep; cbn; try lra. intros k Hk. exact Hk.
Defined.

(** A computation that consumes draws: from a cursor to a value and the
    cursor after it. *)
Definition Gen (A : Type) : Type := nat -> A * nat.

Definition ret {A} (a : A) : Gen A := fun i => (a, i).
Definition bind {A B} (g : Gen A) (k : A -> Gen B) : Gen B :=
  fun i => let (a, j) := g i in k a j.

Declare Scope gen_scope.
Delimit Scope gen_scope with gen.
Notation "x <- g ;; k" := (bind g (fun x => k))
  (at level 61, g at next level, right associativity) : gen_scope.
Open Scope gen_scope.

(** ** Constants of the script *)

Definition TWO_PI : R := PI * 2.
Definition STAR_COUNT : nat := 420.
Definition BAND_COUNT : nat := 420.
Definition CLOUD_NODES : nat := 800.
Definition METEOR_MIN_GAP : R := 3800.
Definition METEOR_MAX_GAP : R := 9500.

(** ** Utilities *)

Definition clamp (v a b : R) : R := Math_max a (Math_min b v).
Definition degToRad (d : R) : R := d * PI / 180.

(** ** Data model *)

Inductive Color : Type :=
| HSL (h s l : R)
| HSLA (h s l a : R)
| RGBA (r g b a : R).

Record Star : Type := {
  s_x : R; s_y : R; s_r : R;
  baseAlpha : R; twinkleSpeed : R; phase : R;
  color : Color; glow : Color;
  depth : R
}.

(** One trail point [{x, y, t}] *)
Record Sample : Type := { p_x : R; p_y : R; p_t : R }.

Record Meteor : Type := {
  m_x : R; m_y : R; vx : R; vy : R;
  life : R; age : R;
  trail : list Sample
}.

(** The offscreen canvas as what was painted on it. *)
Record Blob : Type := { b_x : R; b_y : R; b_size : R; b_alpha : R }.

Record Texture : Type := {
  tex_width : R; tex_height : R;
  tex_blobs : list Blob;
  tex_veil : Color
}.

Record Parallax : Type := { px : R; py : R; targetX : R; targetY : R }.

Record Milky : Type := {
  angle : R; width : R; texture : option Texture; dirty : bool
}.

(** Commands issued on the visible canvas context. *)
Inductive Cmd : Type :=
| ClearRect (w h : R)
| DrawImage (tex : Texture) (globalAlpha w h : R)
| FillStar (x y r globalAlpha shadowBlur : R) (shadowColor fillStyle : Color)
| StrokeCross (x y r globalAlpha : R) (strokeStyle : Color)
| StrokeTrail (fromX fromY toX toY lineWidth : R) (strokeStyle : Color)
| FillHead (x y globalAlpha : R).

(** The globals of the script.  [cursor] is the number of [Math.random]
    calls made so far.  [spawnCalls] and [textureCalls] are ghost
    counters of the calls of [spawnMeteor] and [makeMilkyTexture]. *)
Record Scene : Type := {
  W : R; H : R;
  stars : list Star; bandStars : list Star;
  meteor : option Meteor; nextMeteorAt : R;
  parallax : Parallax; milky : Milky;
  last : R;
  chkTwinkle : bool; chkMeteors : bool; chkMilky : bool;
  cursor : nat; spawnCalls : nat; textureCalls : nat
}.

Definition set_size (w h : R) (s : Scene) : Scene :=
  {| W := w; H := h; stars := stars s; bandStars := bandStars s;
     meteor := meteor s; nextMeteorAt := nextMeteorAt s;
     parallax := parallax s; milky := milky s; last := last s;
     chkTwinkle := chkTwinkle s; chkMeteors := chkMeteors s;
     chkMilky := chkMilky s; cursor := cursor s;
     spawnCalls := spawnCalls s; textureCalls := textureCalls s |}.

Definition set_stars (l : list Star) (s : Scene) : Scene :=
  {| W := W s; H := H s; stars := l; bandStars := bandStars s;
     meteor := meteor s; nextMeteorAt := nextMeteorAt s;
     parallax := parallax s; milky := milky s; last := last s;
     chkTwinkle := chkTwinkle s; chkMeteors := chkMeteors s;
     chkMilky := chkMilky s; cursor := cursor s;
     spawnCalls := spawnCalls s; textureCalls := textureCalls s |}.

Definition set_bandStars (l : list Star) (s : Scene) : Scene :=
  {| W := W s; H := H s; stars := stars s; bandStars := l;
     meteor := meteor s; nextMeteorAt := nextMeteorAt s;
     parallax := parallax s; milky := milky s; last := last s;
     chkTwinkle := chkTwinkle s; chkMeteors := chkMeteors s;
     chkMilky := chkMilky s; cursor := cursor s;
     spawnCalls := spawnCalls s; textureCalls := textureCalls s |}.

Definition set_meteor (m : option Meteor) (s : Scene) : Scene :=
  {| W := W s; H := H s; stars := stars s; bandStars := bandStars s;
     meteor := m; nextMeteorAt := nextMeteorAt s;
     parallax := parallax s; milky := milky s; last := last s;
     chkTwinkle := chkTwinkle s; chkMeteors := chkMeteors s;
     chkMilky := chkMilky s; cursor := cursor s;
     spawnCalls := spawnCalls s; textureCalls := textureCalls s |}.

Definition set_nextMeteorAt (t : R) (s : Scene) : Scene :=
  {| W := W s; H := H s; stars := stars s; bandStars := bandStars s;
     meteor := meteor s; nextMeteorAt := t;
     parallax := parallax s; milky := milky s; last := last s;
     chkTwinkle := chkTwinkle s; chkMeteors := chkMeteors s;
     chkMilky := chkMilky s; cursor := cursor s;
     spawnCalls := spawnCalls s; textureCalls := textureCalls s |}.

Definition set_parallax (p : Parallax) (s : Scene) : Scene :=
  {| W := W s; H := H s; stars := stars s; bandStars := bandStars s;
     meteor := meteor s; nextMeteorAt := nextMeteorAt s;
     parallax := p; milky := milky s; last := last s;
     chkTwinkle := chkTwinkle s; chkMeteors := chkMeteors s;
     chkMilky := chkMilky s; cursor := cursor s;
     spawnCalls := spawnCalls s; textureCalls := textureCalls s |}.

Definition set_milky (k : Milky) (s : Scene) : Scene :=
  {| W := W s; H := H s; stars := stars s; bandStars := bandStars s;
     meteor := meteor s; nextMeteorAt := nextMeteorAt s;
     parallax := parallax s; milky := k; last := last s;
     chkTwinkle := chkTwinkle s; chkMeteors := chkMeteors s;
     chkMilky := chkMilky s; cursor := cursor s;
     spawnCalls := spawnCalls s; textureCalls := textureCalls s |}.

Definition set_last (t : R) (s : Scene) : Scene :=
  {| W := W s; H := H s; stars := stars s; bandStars := bandStars s;
     meteor := meteor s; nextMeteorAt := nextMeteorAt s;
     parallax := parallax s; milky := milky s; last := t;
     chkTwinkle := chkTwinkle s; chkMeteors := chkMeteors s;
     chkMilky := chkMilky s; cursor := cursor s;
     spawnCalls := spawnCalls s; textureCalls := textureCalls s |}.

Definition set_chkTwinkle (b : bool) (s : Scene) : Scene :=
  {| W := W s; H := H s; stars := stars s; bandStars := bandStars s;
     meteor := meteor s; nextMeteorAt := nextMeteorAt s;
     parallax := parallax s; milky := milky s; last := last s;
     chkTwinkle := b; chkMeteors := chkMeteors s;
     chkMilky := chkMilky s; cursor := cursor s;
     spawnCalls := spawnCalls s; textureCalls := textureCalls s |}.

Definition set_chkMeteors (b : bool) (s : Scene) : Scene :=
  {| W := W s; H := H s; stars := stars s; bandStars := bandStars s;
     meteor := meteor s; nextMeteorAt := nextMeteorAt s;
     parallax := parallax s; milky := milky s; last := last s;
     chkTwinkle := chkTwinkle s; chkMeteors := b;
     chkMilky := chkMilky s; cursor := cursor s;
     spawnCalls := spawnCalls s; textureCalls := textureCalls s |}.

Definition set_chkMilky (b : bool) (s : Scene) : Scene :=
  {| W := W s; H := H s; stars := stars s; bandStars := bandStars s;
     meteor := meteor s; nextMeteorAt := nextMeteorAt s;
     parallax := parallax s; milky := milky s; last := last s;
     chkTwinkle := chkTwinkle s; chkMeteors := chkMeteors s;
     chkMilky := b; cursor := cursor s;
     spawnCalls := spawnCalls s; textureCalls := textureCalls s |}.

Definition set_cursor (i : nat) (s : Scene) : Scene :=
  {| W := W s; H := H s; stars := stars s; bandStars := bandStars s;
     meteor := meteor s; nextMeteorAt := nextMeteorAt s;
     parallax := parallax s; milky := milky s; last := last s;
     chkTwinkle := chkTwinkle s; chkMeteors := chkMeteors s;
     chkMilky := chkMilky s; cursor := i;
     spawnCalls := spawnCalls s; textureCalls := textureCalls s |}.

Definition count_spawn (s : Scene) : Scene :=
  {| W := W s; H := H s; stars := stars s; bandStars := bandStars s;
     meteor := meteor s; nextMeteorAt := nextMeteorAt s;
     parallax := parallax s; milky := milky s; last := last s;
     chkTwinkle := chkTwinkle s; chkMeteors := chkMeteors s;
     chkMilky := chkMilky s; cursor := cursor s;
     spawnCalls := S (spawnCalls s); textureCalls := textureCalls s |}.

Definition count_texture (s : Scene) : Scene :=
  {| W := W s; H := H s; stars := stars s; bandStars := bandStars s;
     meteor := meteor s; nextMeteorAt := nextMeteorAt s;
     parallax := parallax s; milky := milky s; last := last s;
     chkTwinkle := chkTwinkle s; chkMeteors := chkMeteors s;
     chkMilky := chkMilky s; cursor := cursor s;
     spawnCalls := spawnCalls s; textureCalls := S (textureCalls s) |}.

(** Run a generator on the scene's cursor. *)
Definition run {A} (g : Gen A) (s : Scene) : A * Scene :=
  let (a, j) := g (cursor s) in (a, set_cursor j s).

(** ** What the handlers read from the outside *)

(** [clientX]/[clientY] are absent on a touch event, which carries
    [touches] instead; [e.touches?.[0]?.clientX] is the first touch point
    if there is one. *)
Record PointerEvt : Type := {
  clientX : option R; clientY : option R;
  touches : list (R * R)
}.

(** What one call of [frame] reads from the outside: its argument and
    the three later readings of [performance.now()]. *)
Record FrameIn : Type := {
  f_now : R;
  f_clockStars : R; f_clockBand : R; f_clockMeteors : R
}.

(** The readings of the top-level statements. *)
Record BootEnv : Type := {
  clock0 : R;            (* performance.now() at line 35 *)
  clock1 : R;            (* performance.now() at line 225 *)
  innerWidth : R; innerHeight : R;
  twinkleChecked : bool; meteorsChecked : bool; milkyChecked : bool
}.

(** The events the page delivers to the script. *)
Inductive Event : Type :=
| EvResize (vw vh : R)
| EvPointer (e : PointerEvt)
| EvClick
| EvToggleTwinkle (b : bool)
| EvToggleMeteors (b : bool)
| EvToggleMilky (b : bool)
| EvFrame (fi : FrameIn).

(** ** Concrete scenes used by the examples *)

(** The source whose every draw is 1/2. *)
Definition halfSource : RandomSource := scriptedSource [] (Forall_nil inUnit).

Definition restParallax : Parallax :=
  {| px := 0; py := 0; targetX := 0; targetY := 0 |}.

Definition flatBand : Milky :=
  {| angle := 0; width := 270; texture := None; dirty := true |}.

(** A meteor 496 ms into a lifespan of 500 ms, in the middle of an
    800 x 600 viewport. *)
Definition lateMeteor : Meteor :=
  {| m_x := 400; m_y := 200; vx := 600; vy := 300;
     life := 500; age := 496;
     trail := [ {| p_x := 400; p_y := 200; p_t := 496 |} ] |}.

(** It was spawned at 1000 ms with the smallest gap, so the next spawn
    is due at 4800 ms. *)
Definition sceneLateMeteor : Scene :=
  {| W := 800; H := 600; stars := []; bandStars := [];
     meteor := Some lateMeteor; nextMeteorAt := 4800;
     parallax := restParallax; milky := flatBand;
     last := 1494;
     chkTwinkle := true; chkMeteors := true; chkMilky := false;
     cursor := 7; spawnCalls := 1; textureCalls := 0 |}.

Definition sceneNoMeteor : Scene :=
  {| W := 800; H := 600; stars := []; bandStars := [];
     meteor := None; nextMeteorAt := 1000;
     parallax := restParallax; milky := flatBand;
     last := 1494;
     chkTwinkle := true; chkMeteors := true; chkMilky := false;
     cursor := 0; spawnCalls := 0; textureCalls := 0 |}.

(** Draws for two general stars: the first gets the smallest depth and
    the smallest jitter, the second a larger depth and a larger jitter. *)
Definition twoStarDraws : list R :=
  [0; 0; 1/2; 1/2; 1/2; 1/2; 1/2; 1/2; 1/8; 3/4].

Definition twoStarSource : RandomSource.
Proof.
  refine (scriptedSource twoStarDraws _).
  unfold twoStarDraws, inUnit. repeat constructor; lra.
Defined.

Definition bootEnv0 : BootEnv :=
  {| clock0 := 0; clock1 := 1; innerWidth := 800; innerHeight := 600;
     twinkleChecked := true; meteorsChecked := true; milkyChecked := true |}.

Definition frameIn0 : FrameIn :=
  {| f_now := 1510; f_clockStars := 1510; f_clockBand := 1510;
     f_clockMeteors := 1510 |}.

(** A frame 7 s after boot, with no time elapsed since the last frame. *)
Definition spawnFrame : FrameIn :=
  {| f_now := 1; f_clockStars := 7000; f_clockBand := 7000;
     f_clockMeteors := 7000 |}.

(** A pointer position 200 pixels to the right of an 800 pixel wide
    viewport, as during a drag that leaves the window. *)
Definition dragOutside : PointerEvt :=
  {| clientX := Some 1000; clientY := Some 300; touches := [] |}.

Definition quietEvents : list Event :=
  [ EvFrame frameIn0; EvPointer dragOutside; EvToggleMeteors false;
    EvFrame frameIn0 ].

(** A pointer position inside the 800 x 600 viewport. *)
Definition moveInside : PointerEvt :=
  {| clientX := Some 200; clientY := Some 450; touches := [] |}.

(** A general star half way in depth. *)
Definition sampleStar : Star :=
  {| s_x := 100; s_y := 50; s_r := 1; baseAlpha := 0.5;
     twinkleSpeed := 1; phase := 0;
     color := HSL 220 90 92; glow := HSLA 220 100 80 0.95;
     depth := 0.5 |}.

(** A parallax offset on its way to the lower right corner. *)
Definition driftingParallax : Parallax :=
  {| px := 0.5; py := -0.25; targetX := 1; targetY := 1 |}.

(** An 800 x 600 scene whose parallax is on its way to the lower right
    corner. *)
Definition sceneDrifting : Scene :=
  {| W := 800; H := 600; stars := []; bandStars := [];
     meteor := None; nextMeteorAt := 9000;
     parallax := driftingParallax; milky := flatBand;
     last := 1494;
     chkTwinkle := true; chkMeteors := true; chkMilky := false;
     cursor := 0; spawnCalls := 0; textureCalls := 0 |}.

Section Script.

Variable rs : RandomSource.
(** [window.devicePixelRatio] *)
Variable devicePixelRatio : R.

Definition DPR : R :=
  Math_min (if Req_dec_T devicePixelRatio 0 then 1 else devicePixelRatio) 2.

Definition Math_random : Gen R := fun i => (draw rs i, S i).

(** Over the reals the value stays below [max]; in double arithmetic
    the sum can round up to [max] when the draw is close to 1, which is
    why the ranges of random fields are stated with [max] included. *)
Definition rand (min max : R) : Gen R :=
  u <- Math_random ;; ret (u * (max - min) + min).

(** The floor of [rand(min, max + 1)]: [max + 1] itself is returned
    when that call returns its upper bound. *)
Definition randInt (min max : R) : Gen R :=
  v <- rand min (max + 1) ;; ret (Math_floor v).

(** [while (u === 0) u = Math.random();] starting from [u = 0]: draw
    until a draw is not zero.  [fuel] counts the retries still allowed. *)
Fixpoint draw_until_nonzero (fuel : nat) : Gen R :=
  fun i =>
    let u := draw rs i in
    match fuel with
    | O => (u, S i)
    | S f => if Req_dec_T u 0 then draw_until_nonzero f (S i) else (u, S i)
    end.

Definition nonzero_random : Gen R :=
  fun i => draw_until_nonzero (gap rs i) i.

(** Normal distribution via Box-Muller *)
Definition gaussian : Gen R :=
  u <- nonzero_random ;;
  v <- nonzero_random ;;
  ret (Math_sqrt (-2.0 * Math_log u) * Math_cos (2.0 * PI * v)).

(** ** Scene construction *)

(** Radius of a general star from its depth and its random jitter
    (line 94: [Math.pow(1 - depth, 1.2) * rand(0.6, 1.8) + 0.3]). *)
Definition starRadius (depth jitter : R) : R :=
  Math_pow (1 - depth) 1.2 * jitter + 0.3.

Definition makeStar (w h minDepth maxDepth : R) : Gen Star :=
  depth <- rand minDepth maxDepth ;;
  jitter <- rand 0.6 1.8 ;;
  let r := starRadius depth jitter in
  tone <- rand 210 265 ;;
  ux <- Math_random ;;
  uy <- Math_random ;;
  ba <- rand 0.25 0.85 ;;
  ts <- rand 0.6 1.8 ;;
  ph <- rand 0 TWO_PI ;;
  ret {| s_x := ux * w; s_y := uy * h; s_r := r;
         baseAlpha := ba; twinkleSpeed := ts; phase := ph;
         color := HSL tone 90 92; glow := HSLA tone 100 80 0.95;
         depth := depth |}.

(** General stars with depth for parallax: the [for] loop pushes one star
    per iteration. *)
Fixpoint makeStars_from (w h : R) (n : nat) (minDepth maxDepth : R)
    (arr : list Star) : Gen (list Star) :=
  match n with
  | O => ret arr
  | S k =>
      st <- makeStar w h minDepth maxDepth ;;
      makeStars_from w h k minDepth maxDepth (arr ++ [st])
  end.

Definition makeStars (w h : R) (count : nat) (minDepth maxDepth : R)
    : Gen (list Star) :=
  makeStars_from w h count minDepth maxDepth [].

(** One pass through the body of the [while] loop of [makeBandStars]
    (lines 121-141): [None] when the sampled point is rejected by the
    [continue] of line 127, the new star otherwise. *)
Definition bandAttempt (w h : R) (k : Milky) : Gen (option Star) :=
  let cx := w / 2 in
  let cy := h / 2 in
  let dirx := Math_cos (angle k) in
  let diry := Math_sin (angle k) in
  let normx := - diry in
  let normy := dirx in
  t <- rand (- Math_hypot w h) (Math_hypot w h) ;;
  g <- gaussian ;;
  let d := g * (width k * 0.35) in
  let x := cx + dirx * t + normx * d in
  let y := cy + diry * t + normy * d in
  if Rltb x (-50) || Rgtb x (w + 50) || Rltb y (-50) || Rgtb y (h + 50)
  then ret None
  else
    let distFactor :=
      Math_exp (- (d * d) / (2 * Math_pow (width k * 0.45) 2)) in
    let depth := clamp (1 - distFactor * 0.9) 0.1 0.95 in
    j <- rand 0.6 2.2 ;;
    let r := j * (0.8 + distFactor) in
    tone <- rand 200 250 ;;
    ts <- rand 0.5 1.5 ;;
    ph <- rand 0 TWO_PI ;;
    ret (Some {| s_x := x; s_y := y; s_r := r;
                 baseAlpha := clamp (0.3 + distFactor * 0.7) 0.25 1;
                 twinkleSpeed := ts; phase := ph;
                 color := HSL tone 95 95;
                 glow := HSLA tone 100 85 0.95;
                 depth := depth |}).

(** Stars clustered along a slanted Milky Way band.  The [while] loop
    (line 119) runs on [fuel]; [None] means the fuel ran out before the
    loop condition became false.  The loop returns the array and the
    local counter [tries]. *)
Fixpoint bandLoop (fuel : nat) (w h : R) (k : Milky) (count : nat)
    (arr : list Star) (tries : nat) : Gen (option (list Star * nat)) :=
  match fuel with
  | O => ret None
  | S f =>
      if ((length arr <? count) && (tries <? count * 30))%nat then
        let tries := S tries in
        o <- bandAttempt w h k ;;
        match o with
        | None => bandLoop f w h k count arr tries
        | Some st => bandLoop f w h k count (arr ++ [st]) tries
        end
      else ret (Some (arr, tries))
  end.

Definition makeBandStars_fuel (fuel : nat) (w h : R) (k : Milky)
    (count : nat) : Gen (option (list Star * nat)) :=
  bandLoop fuel w h k count [] O.

(** The loop ends within [count * 30] iterations, so this fuel is never
    used up. *)
Definition makeBandStars (w h : R) (k : Milky) (count : nat)
    : Gen (list Star) :=
  o <- makeBandStars_fuel (S (count * 30)) w h k count ;;
  ret (match o with Some (arr, _) => arr | None => [] end).

(** Offscreen Milky Way texture: the blobs painted by the [for] loop. *)
Fixpoint cloudNodes (n : nat) (w h : R) (k : Milky) (acc : list Blob)
    : Gen (list Blob) :=
  match n with
  | O => ret acc
  | S n' =>
      let cx := w / 2 in
      let cy := h / 2 in
      let dirx := Math_cos (angle k) in
      let diry := Math_sin (angle k) in
      let normx := - diry in
      let normy := dirx in
      t <- rand (- Math_hypot w h) (Math_hypot w h) ;;
      g <- gaussian ;;
      f <- rand 0.15 0.45 ;;
      let d := g * (width k * f) in
      let x := cx + dirx * t + normx * d in
      let y := cy + diry * t + normy * d in
      g2 <- gaussian ;;
      let size := Math_abs g2 * 18 + 6 in
      let alpha :=
        clamp (0.006 + Math_exp (- (d * d) / (2 * Math_pow (width k * 0.7) 2))
                       * 0.028) 0.004 0.05 in
      cloudNodes n' w h k
        (acc ++ [ {| b_x := x; b_y := y; b_size := size; b_alpha := alpha |} ])
  end.

Definition makeMilkyTexture (s : Scene) : Scene :=
  let (blobs, s1) := run (cloudNodes CLOUD_NODES (W s) (H s) (milky s) []) s in
  let off := {| tex_width := Math_max 1 (Math_floor (W s * DPR));
                tex_height := Math_max 1 (Math_floor (H s * DPR));
                tex_blobs := blobs;
                tex_veil := RGBA 255 255 255 0.015 |} in
  count_texture
    (set_milky {| angle := angle (milky s1); width := width (milky s1);
                  texture := Some off; dirty := false |} s1).

Definition seedScene (s : Scene) : Scene :=
  let (st, s1) := run (makeStars (W s) (H s) STAR_COUNT 0.2 1.0) s in
  let s2 := set_stars st s1 in
  let (bs, s3) := run (makeBandStars (W s2) (H s2) (milky s2) BAND_COUNT) s2 in
  let s4 := set_bandStars bs s3 in
  makeMilkyTexture s4.

(** Resize & DPI fit: [vw], [vh] are [window.innerWidth], [innerHeight]. *)
Definition resize (vw vh : R) (s : Scene) : Scene :=
  let s1 := set_size vw vh s in
  set_milky {| angle := angle (milky s1);
               width := Math_max 120 (Math_min (W s1) (H s1) * 0.45);
               texture := texture (milky s1); dirty := true |} s1.

Definition onResize (vw vh : R) (s : Scene) : Scene :=
  seedScene (resize vw vh s).

(** ** Pointer input for parallax *)

Definition pointerX (e : PointerEvt) (dflt : R) : R :=
  match clientX e with
  | Some v => v
  | None => match touches e with (tx, _) :: _ => tx | [] => dflt end
  end.

Definition pointerY (e : PointerEvt) (dflt : R) : R :=
  match clientY e with
  | Some v => v
  | None => match touches e with (_, ty) :: _ => ty | [] => dflt end
  end.

Definition onPointer (e : PointerEvt) (s : Scene) : Scene :=
  let x := pointerX e (W s / 2) in
  let y := pointerY e (H s / 2) in
  let nx := (x / W s) * 2 - 1 in
  let ny := (y / H s) * 2 - 1 in
  set_parallax {| px := px (parallax s); py := py (parallax s);
                  targetX := nx; targetY := ny |} s.

(** ** Meteors *)

Definition spawnMeteorGen (w h ang : R) : Gen Meteor :=
  u <- Math_random ;;
  let fromLeft := Rltb u 0.5 in
  startX <- (if fromLeft then rand (- w * 0.2) (w * 0.1)
             else rand (w * 0.9) (w * 1.2)) ;;
  startY <- rand (- h * 0.1) (h * 0.35) ;;
  let baseAngle := ang + (if fromLeft then 0 else PI) in
  da <- rand (-8) 8 ;;
  let a := baseAngle + degToRad da in
  sp <- rand 650 1150 ;;
  let speed := sp / 1000 * Math_max w h in
  lf <- rand 500 1100 ;;
  ret {| m_x := startX; m_y := startY;
         vx := Math_cos a * speed; vy := Math_sin a * speed;
         life := lf; age := 0; trail := [] |}.

Definition spawnMeteor (s : Scene) : Scene :=
  let (m, s1) := run (spawnMeteorGen (W s) (H s) (angle (milky s))) s in
  count_spawn (set_meteor (Some m) s1).

(** The spawn test of [handleMeteors] (line 294). *)
Definition spawnDue (now : R) (s : Scene) : bool :=
  chkMeteors s
  && match meteor s with
     | None => true
     | Some m => Rgtb (age m) (life m)
     end
  && Rgeb now (nextMeteorAt s).

(** [trail.push(p); if (trail.length > 120) trail.shift();] *)
Definition pushTrail (p : Sample) (tr : list Sample) : list Sample :=
  let tr1 := tr ++ [p] in
  if (120 <? length tr1)%nat then tl tr1 else tr1.

(** Age, motion and trail of one frame (lines 301-310). *)
Definition advanceMeteor (step : R) (m : Meteor) : Meteor :=
  let age1 := age m + step in
  let x1 := m_x m + vx m * (step / 1000) in
  let y1 := m_y m + vy m * (step / 1000) in
  {| m_x := x1; m_y := y1; vx := vx m; vy := vy m;
     life := life m; age := age1;
     trail := pushTrail {| p_x := x1; p_y := y1; p_t := age1 |} (trail m) |}.

Definition origin : Sample := {| p_x := 0; p_y := 0; p_t := 0 |}.

(** Trail rendering: [for (let i = trail.length - 1; i > 0; i--)]. *)
Fixpoint drawTrail (tr : list Sample) (i : nat) : Gen (list Cmd) :=
  match i with
  | O => ret []
  | S j =>
      let a := nth (S j) tr origin in
      let b := nth j tr origin in
      let k := INR (S j) / INR (length tr) in
      let w := clamp (2.8 * k) 0.2 2.8 in
      hue <- randInt 205 230 ;;
      rest <- drawTrail tr j ;;
      ret (StrokeTrail (p_x a) (p_y a) (p_x b) (p_y b) w
             (HSLA hue 100 85 (0.06 + k * 0.25)) :: rest)
  end.

(** The cleanup test (lines 340-344). *)
Definition expired (m : Meteor) : bool := Rgtb (age m) (life m).

Definition offscreen (w h : R) (m : Meteor) : bool :=
  Rltb (m_x m) (-200) || Rgtb (m_x m) (w + 200)
  || Rltb (m_y m) (-200) || Rgtb (m_y m) (h + 200).

Definition cleanupDue (w h : R) (m : Meteor) : bool :=
  expired m || offscreen w h m.

(** The first statement of [handleMeteors] (lines 294-297): spawn and
    reschedule. *)
Definition spawnPhase (now : R) (s : Scene) : Scene :=
  if spawnDue now s then
    let s' := spawnMeteor s in
    let (g, s'') := run (rand METEOR_MIN_GAP METEOR_MAX_GAP) s' in
    set_nextMeteorAt (now + g) s''
  else s.

(** [now] is the reading of [performance.now()] at line 293. *)
Definition handleMeteors (now dt : R) (s : Scene) : Scene * list Cmd :=
  let s1 := spawnPhase now s in
  match meteor s1 with
  | None => (s1, [])
  | Some m =>
      let m1 := advanceMeteor dt m in
      let (segs, s2) :=
        run (drawTrail (trail m1) (length (trail m1) - 1)) s1 in
      let headAlpha := clamp (1 - age m1 / life m1) 0.15 0.9 in
      let cmds := segs ++ [FillHead (m_x m1) (m_y m1) headAlpha] in
      if cleanupDue (W s2) (H s2) m1
      then (set_meteor None s2, cmds)
      else (set_meteor (Some m1) s2, cmds)
  end.

(** ** Render loop *)

(** Per-star twinkle factor and opacity (lines 262-263); [t] is
    [performance.now() / 1000]. *)
Definition twinkle (on : bool) (t : R) (st : Star) : R :=
  if on then 0.5 + 0.5 * Math_sin (t * twinkleSpeed st + phase st) else 1.0.

Definition starAlpha (on : bool) (t : R) (st : Star) : R :=
  clamp (baseAlpha st * twinkle on t st) 0.05 1.

Definition drawStar (on : bool) (p : Parallax) (t parallaxScale : R)
    (st : Star) : list Cmd :=
  let pX := px p * (1 - depth st) * 14 * parallaxScale in
  let pY := py p * (1 - depth st) * 10 * parallaxScale in
  let alpha := starAlpha on t st in
  FillStar (s_x st + pX) (s_y st + pY) (s_r st) alpha (s_r st * 6)
    (glow st) (color st)
  :: (if Rgtb (s_r st) 1.6 && Rgtb alpha 0.6
      then [StrokeCross (s_x st + pX) (s_y st + pY) (s_r st) (alpha * 0.15)
              (glow st)]
      else []).

(** [clock] is the reading of [performance.now()] at line 256. *)
Definition drawStars (s : Scene) (clock : R) (lst : list Star)
    (parallaxScale : R) : list Cmd :=
  let t := clock / 1000 in
  flat_map (drawStar (chkTwinkle s) (parallax s) t parallaxScale) lst.

(** Smooth parallax (lines 231-232). *)
Definition easeParallax (p : Parallax) : Parallax :=
  {| px := px p + (targetX p - px p) * 0.06;
     py := py p + (targetY p - py p) * 0.06;
     targetX := targetX p; targetY := targetY p |}.

(** Draw Milky Way texture (lines 238-243). *)
Definition drawMilky (s : Scene) : Scene * list Cmd :=
  if chkMilky s then
    let s1 :=
      if dirty (milky s) || match texture (milky s) with
                            | None => true | Some _ => false end
      then makeMilkyTexture s else s in
    match texture (milky s1) with
    | Some tex =>
        (s1, [DrawImage tex 0.9 (tex_width tex / DPR) (tex_height tex / DPR)])
    | None => (s1, [])
    end
  else (s, []).

Definition frame (fi : FrameIn) (s : Scene) : Scene * list Cmd :=
  let dt := f_now fi - last s in
  let s1 := set_last (f_now fi) s in
  let s2 := set_parallax (easeParallax (parallax s1)) s1 in
  let (s3, band) := drawMilky s2 in
  let c1 := drawStars s3 (f_clockStars fi) (stars s3) 0.8 in
  let c2 := drawStars s3 (f_clockBand fi) (bandStars s3) 1.2 in
  let (s4, met) := handleMeteors (f_clockMeteors fi) dt s3 in
  (s4, ClearRect (W s) (H s) :: band ++ c1 ++ c2 ++ met).

(** ** Event handlers *)

(** Click to nudge the band angle slightly. *)
Definition onClick (s : Scene) : Scene :=
  let (d, s1) := run (rand (-8) 8) s in
  let s2 := set_milky {| angle := angle (milky s1) + degToRad d;
                         width := width (milky s1);
                         texture := texture (milky s1);
                         dirty := true |} s1 in
  let (bs, s3) := run (makeBandStars (W s2) (H s2) (milky s2) BAND_COUNT) s2 in
  set_bandStars bs s3.

(** Toggle handlers: the browser has set [checked] to [b] before the
    [change] listener runs. *)
Definition onToggleMilky (b : bool) (s : Scene) : Scene :=
  set_chkMilky b s.

Definition onToggleTwinkle (b : bool) (s : Scene) : Scene :=
  set_chkTwinkle b s.

Definition onToggleMeteors (b : bool) (s : Scene) : Scene :=
  let s1 := set_chkMeteors b s in
  if negb (chkMeteors s1) then set_meteor None s1 else s1.

Definition step (ev : Event) (s : Scene) : Scene :=
  match ev with
  | EvResize vw vh => onResize vw vh s
  | EvPointer e => onPointer e s
  | EvClick => onClick s
  | EvToggleTwinkle b => onToggleTwinkle b s
  | EvToggleMeteors b => onToggleMeteors b s
  | EvToggleMilky b => onToggleMilky b s
  | EvFrame fi => fst (frame fi s)
  end.

Definition steps (evs : list Event) (s : Scene) : Scene :=
  fold_left (fun acc ev => step ev acc) evs s.

(** ** Boot: the top-level statements of the script, in order *)

(** The globals after the declarations of lines 31-46 and 225. *)
Definition initialGlobals (b : BootEnv) : Scene :=
  let (g, i1) := rand METEOR_MIN_GAP METEOR_MAX_GAP O in
  let (deg, i2) := rand 18 42 i1 in
  let (u, i3) := Math_random i2 in
  {| W := 0; H := 0; stars := []; bandStars := [];
     meteor := None; nextMeteorAt := clock0 b + g;
     parallax := {| px := 0; py := 0; targetX := 0; targetY := 0 |};
     milky := {| angle := degToRad (deg * (if Rltb u 0.5 then 1 else -1));
                 width := 0; texture := None; dirty := true |};
     last := clock1 b;
     chkTwinkle := twinkleChecked b; chkMeteors := meteorsChecked b;
     chkMilky := milkyChecked b;
     cursor := i3; spawnCalls := O; textureCalls := O |}.

(** [resize(); seedScene();] of lines 350-351. *)
Definition boot (b : BootEnv) : Scene :=
  seedScene (resize (innerWidth b) (innerHeight b) (initialGlobals b)).

Inductive reachable : Scene -> Prop :=
| reach_boot : forall b, reachable (boot b)
| reach_step : forall s ev, reachable s -> reachable (step ev s).

(** ** Vocabulary of the statements *)

(** The opacities of the star discs of a command list, in drawing order. *)
Fixpoint fillOpacities (cmds : list Cmd) : list R :=
  match cmds with
  | [] => []
  | FillStar _ _ _ a _ _ _ :: rest => a :: fillOpacities rest
  | _ :: rest => fillOpacities rest
  end.

Definition isDrawImage (c : Cmd) : bool :=
  match c with DrawImage _ _ _ _ => true | _ => false end.

Definition inRange (v : R) : Prop := -1 <= v <= 1.

Definition targetInRange (p : Parallax) : Prop :=
  inRange (targetX p) /\ inRange (targetY p).

Definition currentInRange (p : Parallax) : Prop :=
  inRange (px p) /\ inRange (py p).

(** The meteors that exist in a scene. *)
Definition liveMeteors (s : Scene) : list Meteor :=
  match meteor s with Some m => [m] | None => [] end.

(** An Active meteor: not past its lifespan and within the margin. *)
Definition Active (w h : R) (m : Meteor) : Prop :=
  age m <= life m
  /\ -200 <= m_x m <= w + 200
  /\ -200 <= m_y m <= h + 200.

(** Events that leave the band geometry alone and keep the band off. *)
Definition bandOffEvent (ev : Event) : Prop :=
  match ev with
  | EvResize _ _ | EvClick => False
  | EvToggleMilky b => b = false
  | _ => True
  end.

Definition stale (k : Milky) : bool :=
  dirty k || match texture k with None => true | Some _ => false end.

(** The invariant of the meteor slot: a stored meteor is not past its
    lifespan and its trail has at most 120 samples. *)
Definition meteorOk (s : Scene) : Prop :=
  forall m, meteor s = Some m ->
    age m <= life m /\ (length (trail m) <= 120)%nat.

(** A handler [h] keeps the global read by [f]. *)
Definition keeps {A} (f : Scene -> A) (h : Scene -> Scene) : Prop :=
  forall s, f (h s) = f s.

(** ** Vocabulary of the further properties *)

Definition isFillStar (c : Cmd) : bool :=
  match c with FillStar _ _ _ _ _ _ _ => true | _ => false end.

Definition isStrokeTrail (c : Cmd) : bool :=
  match c with StrokeTrail _ _ _ _ _ _ => true | _ => false end.

Definition isFillHead (c : Cmd) : bool :=
  match c with FillHead _ _ _ => true | _ => false end.

Definition countCmds (p : Cmd -> bool) (cmds : list Cmd) : nat :=
  length (filter p cmds).

(** A whole number between [lo] and [hi]. *)
Definition wholeBetween (lo hi : Z) (v : R) : Prop :=
  exists z : Z, v = IZR z /\ (lo <= z <= hi)%Z.

(** A blob of the band texture: a faint centre and a radius of at least
    6 pixels. *)
Definition blobOk (b : Blob) : Prop :=
  0.004 <= b_alpha b <= 0.05 /\ 6 <= b_size b.

(** What seeding establishes and every handler keeps. *)
Definition seeded (s : Scene) : Prop :=
  width (milky s) = Math_max 120 (Math_min (W s) (H s) * 0.45)
  /\ texture (milky s) <> None
  /\ length (stars s) = STAR_COUNT
  /\ (length (bandStars s) <= BAND_COUNT)%nat
  /\ (1 <= textureCalls s)%nat.

Fixpoint sumR (l : list R) : R :=
  match l with
  | [] => 0
  | v :: rest => v + sumR rest
  end.

(** The newest trail sample is the meteor's own position and age. *)
Definition headSampled (m : Meteor) : Prop :=
  trail m <> []
  /\ List.last (trail m) origin
     = {| p_x := m_x m; p_y := m_y m; p_t := age m |}.

(** A trail segment as [handleMeteors] strokes it: a line width in
    [[0.2, 2.8]], a whole hue from 205 to 231 ([randInt(205, 230)] is
    the floor of [rand(205, 231)]) and an opacity above 0.06 and at
    most 0.31. *)
Definition trailStrokeOk (c : Cmd) : Prop :=
  match c with
  | StrokeTrail _ _ _ _ w (HSLA hue s l a) =>
      0.2 <= w <= 2.8 /\ wholeBetween 205 231 hue
      /\ s = 100 /\ l = 85 /\ 0.06 < a <= 0.31
  | _ => False
  end.

(** Events other than checking the meteors toggle. *)
Definition meteorsOffEvent (ev : Event) : Prop :=
  match ev with
  | EvToggleMeteors b => b = false
  | _ => True
  end.

(** Events other than a frame whose meteor clock has reached [t]. *)
Definition clockBefore (t : R) (ev : Event) : Prop :=
  match ev with
  | EvFrame fi => f_clockMeteors fi < t
  | _ => True
  end.

(** The meteor invariant of the further properties. *)
Definition meteorTracked (s : Scene) : Prop :=
  forall m, meteor s = Some m -> 500 <= life m <= 1100 /\ headSampled m.

(** The Gaussian falloff of a band star at perpendicular offset [d]
    (line 129). *)
Definition falloff (k : Milky) (d : R) : R :=
  Math_exp (- (d * d) / (2 * Math_pow (width k * 0.45) 2)).

(** Where a star disc is painted. *)
Definition discCentre (c : Cmd) : option (R * R) :=
  match c with
  | FillStar x y _ _ _ _ _ => Some (x, y)
  | _ => None
  end.

(** * Properties *)

(** ** Numbers *)

Lemma Rltb_true (a b : R) : Rltb a b = true <-> a < b.
Proof. unfold Rltb; destruct (Rlt_dec a b); split; intros; try easy. Qed.

Lemma Rltb_false (a b : R) : Rltb a b = false <-> b <= a.
Proof.
  unfold Rltb; destruct (Rlt_dec a b); split; intros; try easy; lra.
Qed.

Lemma Rleb_true (a b : R) : Rleb a b = true <-> a <= b.
Proof. unfold Rleb; destruct (Rle_dec a b); split; intros; try easy. Qed.

Lemma Rleb_false (a b : R) : Rleb a b = false <-> b < a.
Proof.
  unfold Rleb; destruct (Rle_dec a b); split; intros; try easy; lra.
Qed.

Lemma clamp_range (v a b : R) : a <= b -> a <= clamp v a b <= b.
Proof.
  intros Hab. unfold clamp, Math_max, Math_min.
  split.
  - apply Rmax_l.
  - apply Rmax_lub; [exact Hab | apply Rmin_l].
Qed.

Lemma clamp_low (v a b : R) : a <= b -> v <= a -> clamp v a b = a.
Proof.
  intros Hab Hv. unfold clamp, Math_max, Math_min.
  rewrite Rmin_right by lra. now rewrite Rmax_left by lra.
Qed.

(** ** Draws *)

Lemma Math_random_range (i : nat) : 0 <= fst (Math_random i) < 1.
Proof. apply draw_range. Qed.

Lemma rand_value (lo hi : R) (i : nat) :
  rand lo hi i = (draw rs i * (hi - lo) + lo, S i).
Proof. reflexivity. Qed.

Lemma rand_range (lo hi : R) (i : nat) :
  lo <= hi -> lo <= fst (rand lo hi i) <= hi.
Proof.
  intros Hle. rewrite rand_value. simpl.
  pose proof (draw_range rs i) as [H0 H1]. split; nra.
Qed.


(** ** What each handler leaves alone *)

Ltac open_run :=
  repeat match goal with
    | |- context [run ?g ?s] =>
        let a := fresh "a" in let j := fresh "j" in
        unfold run at 1; destruct (g (cursor s)) as [a j]
    end.

Ltac keep_field :=
  intro; cbv beta delta [makeMilkyTexture seedScene resize onResize onClick
    spawnMeteor spawnPhase onPointer onToggleMilky onToggleTwinkle
    onToggleMeteors];
  repeat (open_run; cbv beta iota zeta);
  repeat match goal with
    | |- context [if ?c then _ else _] => destruct c
    end;
  repeat (open_run; cbv beta iota zeta);
  reflexivity.

Lemma makeMilkyTexture_meteor : keeps meteor makeMilkyTexture.
Proof. keep_field. Qed.

Lemma makeMilkyTexture_parallax : keeps parallax makeMilkyTexture.
Proof. keep_field. Qed.

Lemma makeMilkyTexture_chkMilky : keeps chkMilky makeMilkyTexture.
Proof. keep_field. Qed.

Lemma makeMilkyTexture_size :
  keeps (fun s => (W s, H s)) makeMilkyTexture.
Proof. keep_field. Qed.

Lemma makeMilkyTexture_textureCalls (s : Scene) :
  textureCalls (makeMilkyTexture s) = S (textureCalls s).
Proof. revert s. keep_field. Qed.

Lemma makeMilkyTexture_fresh (s : Scene) :
  stale (milky (makeMilkyTexture s)) = false.
Proof. revert s. keep_field. Qed.

Lemma seedScene_meteor : keeps meteor seedScene.
Proof. intro s. unfold seedScene. open_run. cbv zeta. open_run.
  now rewrite makeMilkyTexture_meteor. Qed.

Lemma onResize_meteor (vw vh : R) : keeps meteor (onResize vw vh).
Proof. intro s. unfold onResize. now rewrite seedScene_meteor. Qed.

Lemma onClick_meteor : keeps meteor onClick.
Proof. keep_field. Qed.

Lemma onPointer_meteor (e : PointerEvt) : keeps meteor (onPointer e).
Proof. keep_field. Qed.

(** ** The shape of [handleMeteors], [drawMilky] and [frame] *)

Lemma handleMeteors_state (now dt : R) (s : Scene) :
  fst (handleMeteors now dt s) =
  let s1 := spawnPhase now s in
  match meteor s1 with
  | None => s1
  | Some m =>
      let m1 := advanceMeteor dt m in
      let j := snd (drawTrail (trail m1) (length (trail m1) - 1) (cursor s1)) in
      set_meteor (if cleanupDue (W s1) (H s1) m1 then None else Some m1)
        (set_cursor j s1)
  end.
Proof.
  unfold handleMeteors. cbv zeta.
  destruct (meteor (spawnPhase now s)) as [m|]; [|reflexivity].
  unfold run.
  destruct (drawTrail _ _ _) as [segs j]. cbn [snd].
  cbn [W H set_cursor].
  now destruct (cleanupDue _ _ _).
Qed.

Lemma spawnPhase_parallax (now : R) : keeps parallax (spawnPhase now).
Proof. keep_field. Qed.

Lemma spawnPhase_milky (now : R) : keeps milky (spawnPhase now).
Proof. keep_field. Qed.

Lemma spawnPhase_textureCalls (now : R) : keeps textureCalls (spawnPhase now).
Proof. keep_field. Qed.

Lemma spawnPhase_size (now : R) :
  keeps (fun s => (W s, H s)) (spawnPhase now).
Proof. keep_field. Qed.

Lemma spawnPhase_chkMeteors (now : R) : keeps chkMeteors (spawnPhase now).
Proof. keep_field. Qed.

Ltac after_meteors :=
  intros; rewrite handleMeteors_state; cbv zeta;
  match goal with
  | |- context [meteor (spawnPhase ?now ?s)] =>
      destruct (meteor (spawnPhase now s)); cbn
  end.

Lemma handleMeteors_parallax (now dt : R) (s : Scene) :
  parallax (fst (handleMeteors now dt s)) = parallax s.
Proof. after_meteors; apply spawnPhase_parallax. Qed.

Lemma handleMeteors_milky (now dt : R) (s : Scene) :
  milky (fst (handleMeteors now dt s)) = milky s.
Proof. after_meteors; apply spawnPhase_milky. Qed.

Lemma handleMeteors_textureCalls (now dt : R) (s : Scene) :
  textureCalls (fst (handleMeteors now dt s)) = textureCalls s.
Proof. after_meteors; apply spawnPhase_textureCalls. Qed.

Lemma spawnPhase_chkMilky (now : R) : keeps chkMilky (spawnPhase now).
Proof. keep_field. Qed.

Lemma handleMeteors_chkMilky (now dt : R) (s : Scene) :
  chkMilky (fst (handleMeteors now dt s)) = chkMilky s.
Proof. after_meteors; apply spawnPhase_chkMilky. Qed.

Lemma handleMeteors_chkMeteors (now dt : R) (s : Scene) :
  chkMeteors (fst (handleMeteors now dt s)) = chkMeteors s.
Proof. after_meteors; apply spawnPhase_chkMeteors. Qed.

Lemma handleMeteors_no_image (now dt : R) (s : Scene) :
  existsb isDrawImage (snd (handleMeteors now dt s)) = false.
Proof.
  unfold handleMeteors. cbv zeta.
  destruct (meteor (spawnPhase now s)) as [m|]; [|reflexivity].
  unfold run.
  set (tr := trail (advanceMeteor dt m)).
  assert (Hseg : forall n i,
             existsb isDrawImage (fst (drawTrail tr n i)) = false).
  { induction n as [|n IH]; intro i; [reflexivity|].
    cbn [drawTrail]. unfold bind.
    destruct (randInt 205 230 i) as [hue i1].
    specialize (IH i1). destruct (drawTrail tr n i1) as [rest i2].
    cbn in *. exact IH. }
  specialize (Hseg (length tr - 1)%nat (cursor (spawnPhase now s))).
  destruct (drawTrail tr _ _) as [segs j]. cbn [fst] in Hseg.
  assert (Hall : existsb isDrawImage
            (segs ++ [FillHead (m_x (advanceMeteor dt m))
                        (m_y (advanceMeteor dt m))
                        (clamp (1 - age (advanceMeteor dt m)
                                    / life (advanceMeteor dt m)) 0.15 0.9)])
            = false).
  { rewrite existsb_app, Hseg. reflexivity. }
  destruct (cleanupDue _ _ _); exact Hall.
Qed.

Lemma drawMilky_off (s : Scene) :
  chkMilky s = false -> drawMilky s = (s, []).
Proof. intro Hoff. unfold drawMilky. now rewrite Hoff. Qed.

Lemma drawMilky_parallax (s : Scene) :
  parallax (fst (drawMilky s)) = parallax s.
Proof.
  unfold drawMilky. destruct (chkMilky s); [|reflexivity].
  destruct (dirty (milky s) || _).
  - destruct (texture (milky (makeMilkyTexture s)));
      apply makeMilkyTexture_parallax.
  - now destruct (texture (milky s)).
Qed.

Lemma drawMilky_meteor (s : Scene) :
  meteor (fst (drawMilky s)) = meteor s.
Proof.
  unfold drawMilky. destruct (chkMilky s); [|reflexivity].
  destruct (dirty (milky s) || _).
  - destruct (texture (milky (makeMilkyTexture s)));
      apply makeMilkyTexture_meteor.
  - now destruct (texture (milky s)).
Qed.

Lemma frame_state (fi : FrameIn) (s : Scene) :
  fst (frame fi s) =
  fst (handleMeteors (f_clockMeteors fi) (f_now fi - last s)
         (fst (drawMilky
                 (set_parallax (easeParallax (parallax s))
                    (set_last (f_now fi) s))))).
Proof.
  unfold frame. cbv zeta.
  destruct (drawMilky _) as [s3 band]. cbn [fst].
  destruct (handleMeteors _ _ s3) as [s4 met]. reflexivity.
Qed.

Lemma frame_parallax (fi : FrameIn) (s : Scene) :
  parallax (fst (frame fi s)) = easeParallax (parallax s).
Proof.
  rewrite frame_state, handleMeteors_parallax, drawMilky_parallax.
  reflexivity.
Qed.

(** ** Twinkle and opacity *)

Lemma starAlpha_range (on : bool) (t : R) (st : Star) :
  0.05 <= starAlpha on t st <= 1.
Proof. unfold starAlpha. apply clamp_range. lra. Qed.

Lemma fillOpacities_app (c1 c2 : list Cmd) :
  fillOpacities (c1 ++ c2) = fillOpacities c1 ++ fillOpacities c2.
Proof.
  induction c1 as [|c rest IH]; [reflexivity|].
  destruct c; cbn; now rewrite ?IH.
Qed.

Lemma drawStars_opacities (s : Scene) (clock scale : R) (lst : list Star) :
  fillOpacities (drawStars s clock lst scale) =
  map (starAlpha (chkTwinkle s) (clock / 1000)) lst.
Proof.
  unfold drawStars. cbv zeta.
  induction lst as [|st rest IH]; [reflexivity|].
  cbn [flat_map map]. rewrite fillOpacities_app, IH.
  unfold drawStar. cbv zeta.
  now destruct (Rgtb (s_r st) 1.6 && _).
Qed.

(** C10.  Every star of the list handed to [drawStars] is painted as one
    disc whose opacity is [clamp(baseAlpha * tw, 0.05, 1)], and that value
    lies between 0.05 and 1 whatever the star, the clock and the twinkle
    toggle are; when the twinkle factor is 0 the opacity is 0.05. *)
Theorem star_opacity_clamped :
  (forall (s : Scene) (clock scale : R) (lst : list Star),
      fillOpacities (drawStars s clock lst scale) =
      map (starAlpha (chkTwinkle s) (clock / 1000)) lst)
  /\ (forall (on : bool) (t : R) (st : Star),
         0.05 <= starAlpha on t st <= 1)
  /\ (forall (st : Star), clamp (baseAlpha st * 0) 0.05 1 = 0.05).
Proof.
  split; [|split].
  - intros. apply drawStars_opacities.
  - apply starAlpha_range.
  - intro st. apply clamp_low; lra.
Qed.

(** ** Parallax easing *)

Lemma ease_inRange (c t : R) :
  inRange c -> inRange t -> inRange (c + (t - c) * 0.06).
Proof. unfold inRange. intros Hc Ht. lra. Qed.

Lemma easeParallax_inRange (p : Parallax) :
  targetInRange p -> currentInRange p ->
  targetInRange (easeParallax p) /\ currentInRange (easeParallax p).
Proof.
  intros [Htx Hty] [Hx Hy].
  unfold targetInRange, currentInRange, easeParallax; cbn.
  repeat split; try apply ease_inRange; firstorder.
Qed.

(** C9.  If the targets and the current offsets are in [[-1,1]], they are
    still there after one frame, and after any number of frames in a
    row: each easing step is a convex combination of current and
    target. *)
Theorem parallax_stays_in_range :
  forall (fis : list FrameIn) (s : Scene),
    targetInRange (parallax s) -> currentInRange (parallax s) ->
    currentInRange (parallax (steps (map EvFrame fis) s))
    /\ targetInRange (parallax (steps (map EvFrame fis) s)).
Proof.
  induction fis as [|fi rest IH]; intros s Ht Hc.
  - cbn. tauto.
  - cbn [map steps fold_left]. apply IH; cbn [step];
      rewrite frame_parallax; now apply easeParallax_inRange.
Qed.

(** ** Meteor lifecycle *)

Lemma drawMilky_cases (s : Scene) :
  fst (drawMilky s) = s \/ fst (drawMilky s) = makeMilkyTexture s.
Proof.
  unfold drawMilky. destruct (chkMilky s); [|now left].
  destruct (dirty (milky s) || _).
  - right. now destruct (texture (milky (makeMilkyTexture s))).
  - left. now destruct (texture (milky s)).
Qed.

Lemma makeMilkyTexture_spawn_inputs (s : Scene) :
  chkMeteors (makeMilkyTexture s) = chkMeteors s
  /\ nextMeteorAt (makeMilkyTexture s) = nextMeteorAt s
  /\ spawnCalls (makeMilkyTexture s) = spawnCalls s.
Proof. repeat split; revert s; keep_field. Qed.

Lemma drawMilky_spawnDue (now : R) (s : Scene) :
  spawnDue now (fst (drawMilky s)) = spawnDue now s.
Proof.
  destruct (drawMilky_cases s) as [-> | ->]; [reflexivity|].
  unfold spawnDue.
  destruct (makeMilkyTexture_spawn_inputs s) as (-> & -> & _).
  now rewrite makeMilkyTexture_meteor.
Qed.

Lemma drawMilky_spawnCalls (s : Scene) :
  spawnCalls (fst (drawMilky s)) = spawnCalls s.
Proof.
  destruct (drawMilky_cases s) as [-> | ->]; [reflexivity|].
  apply makeMilkyTexture_spawn_inputs.
Qed.

Lemma drawMilky_nextMeteorAt (s : Scene) :
  nextMeteorAt (fst (drawMilky s)) = nextMeteorAt s.
Proof.
  destruct (drawMilky_cases s) as [-> | ->]; [reflexivity|].
  apply makeMilkyTexture_spawn_inputs.
Qed.

Lemma spawnMeteorGen_fresh (w h a : R) (i : nat) :
  trail (fst (spawnMeteorGen w h a i)) = []
  /\ age (fst (spawnMeteorGen w h a i)) = 0
  /\ 500 <= life (fst (spawnMeteorGen w h a i)) <= 1100.
Proof.
  unfold spawnMeteorGen, bind, Math_random.
  destruct (Rltb (draw rs i) 0.5);
    repeat (rewrite rand_value; cbv beta iota zeta);
    unfold ret; cbn; (split; [reflexivity | split; [reflexivity|]]);
    match goal with
    | |- _ <= draw rs ?k * _ + _ <= _ =>
        pose proof (draw_range rs k); lra
    end.
Qed.

Lemma spawnPhase_meteor (now : R) (s : Scene) :
  meteor (spawnPhase now s) =
  if spawnDue now s
  then Some (fst (spawnMeteorGen (W s) (H s) (angle (milky s)) (cursor s)))
  else meteor s.
Proof.
  unfold spawnPhase. destruct (spawnDue now s); [|reflexivity].
  unfold spawnMeteor, run.
  destruct (spawnMeteorGen _ _ _ _) as [m j]. reflexivity.
Qed.

Lemma spawnPhase_spawnCalls (now : R) (s : Scene) :
  spawnCalls (spawnPhase now s) =
  if spawnDue now s then S (spawnCalls s) else spawnCalls s.
Proof.
  unfold spawnPhase. destruct (spawnDue now s); [|reflexivity].
  unfold spawnMeteor, run.
  destruct (spawnMeteorGen _ _ _ _) as [m j]. reflexivity.
Qed.

Lemma spawnPhase_nextMeteorAt (now : R) (s : Scene) :
  nextMeteorAt (spawnPhase now s) =
  if spawnDue now s
  then now + fst (rand METEOR_MIN_GAP METEOR_MAX_GAP
                    (snd (spawnMeteorGen (W s) (H s) (angle (milky s))
                            (cursor s))))
  else nextMeteorAt s.
Proof.
  unfold spawnPhase. destruct (spawnDue now s); [|reflexivity].
  unfold spawnMeteor, run.
  destruct (spawnMeteorGen _ _ _ _) as [m j]. reflexivity.
Qed.

Lemma handleMeteors_spawnCalls (now dt : R) (s : Scene) :
  spawnCalls (fst (handleMeteors now dt s)) =
  if spawnDue now s then S (spawnCalls s) else spawnCalls s.
Proof. after_meteors; apply spawnPhase_spawnCalls. Qed.

Lemma handleMeteors_nextMeteorAt (now dt : R) (s : Scene) :
  nextMeteorAt (fst (handleMeteors now dt s)) =
  nextMeteorAt (spawnPhase now s).
Proof. now after_meteors. Qed.

Lemma handleMeteors_meteor (now dt : R) (s : Scene) :
  meteor (fst (handleMeteors now dt s)) =
  match meteor (spawnPhase now s) with
  | None => None
  | Some m =>
      if cleanupDue (W s) (H s) (advanceMeteor dt m) then None
      else Some (advanceMeteor dt m)
  end.
Proof.
  rewrite handleMeteors_state. cbv zeta.
  pose proof (spawnPhase_size now s) as Hsz. cbv beta in Hsz.
  injection Hsz as HW HH.
  destruct (meteor (spawnPhase now s)) as [m|] eqn:Hm; [|exact Hm].
  cbn. now rewrite HW, HH.
Qed.

Lemma frame_spawnCalls (fi : FrameIn) (s : Scene) :
  spawnCalls (fst (frame fi s)) =
  if spawnDue (f_clockMeteors fi) s then S (spawnCalls s) else spawnCalls s.
Proof.
  rewrite frame_state, handleMeteors_spawnCalls, drawMilky_spawnDue,
    drawMilky_spawnCalls.
  reflexivity.
Qed.

Lemma pushTrail_length (p : Sample) (tr : list Sample) :
  (length tr <= 120)%nat ->
  length (pushTrail p tr) = Nat.min (S (length tr)) 120.
Proof.
  intro Hle. unfold pushTrail. cbv zeta.
  rewrite length_app. cbn [length].
  replace (length tr + 1)%nat with (S (length tr)) by lia.
  destruct (Nat.ltb_spec 120 (S (length tr))) as [Hgt | Hok].
  - assert (Hlen : length tr = 120%nat) by lia.
    destruct tr as [|q tr']; [discriminate|].
    cbn [app tl]. rewrite length_app. cbn [length] in *. lia.
  - rewrite length_app. cbn [length]. lia.
Qed.

Lemma advanceMeteor_trail (dt : R) (m : Meteor) :
  trail (advanceMeteor dt m) =
  pushTrail {| p_x := m_x m + vx m * (dt / 1000);
               p_y := m_y m + vy m * (dt / 1000);
               p_t := age m + dt |} (trail m).
Proof. reflexivity. Qed.

Lemma advanceMeteor_trail_length (dt : R) (m : Meteor) :
  (length (trail m) <= 120)%nat ->
  length (trail (advanceMeteor dt m)) = Nat.min (S (length (trail m))) 120.
Proof. intro Hle. rewrite advanceMeteor_trail. now apply pushTrail_length. Qed.

(** Where the meteor of the state after a frame comes from. *)
Lemma frame_meteor_origin (fi : FrameIn) (s : Scene) (m' : Meteor) :
  meteor (fst (frame fi s)) = Some m' ->
  cleanupDue (W s) (H s) m' = false
  /\ exists m, m' = advanceMeteor (f_now fi - last s) m
       /\ (meteor s = Some m \/ (trail m = [] /\ age m = 0)).
Proof.
  rewrite frame_state, handleMeteors_meteor, spawnPhase_meteor.
  rewrite drawMilky_spawnDue, drawMilky_meteor.
  set (s3 := fst (drawMilky _)).
  assert (Hsz : W s3 = W s /\ H s3 = H s).
  { subst s3. destruct (drawMilky_cases
      (set_parallax (easeParallax (parallax s)) (set_last (f_now fi) s)))
      as [-> | ->]; [now split|].
    pose proof (makeMilkyTexture_size
      (set_parallax (easeParallax (parallax s)) (set_last (f_now fi) s)))
      as E.
    cbv beta in E. injection E as EW EH. now split. }
  destruct Hsz as [-> ->].
  destruct (spawnDue _ _).
  - destruct (cleanupDue _ _ _) eqn:Hc; [discriminate|].
    intros [= <-]. split; [exact Hc|].
    eexists. split; [reflexivity|]. right.
    split; apply spawnMeteorGen_fresh.
  - cbn [meteor set_parallax set_last].
    destruct (meteor s) as [m|]; [|discriminate].
    destruct (cleanupDue _ _ _) eqn:Hc; [discriminate|].
    intros [= <-]. split; [exact Hc|].
    exists m. split; [reflexivity | now left].
Qed.

Lemma cleanupDue_false (w h : R) (m : Meteor) :
  cleanupDue w h m = false <-> Active w h m.
Proof.
  unfold cleanupDue, expired, offscreen, Active, Rgtb.
  rewrite !orb_false_iff, !Rltb_false. tauto.
Qed.

Lemma boot_meteor (b : BootEnv) : meteor (boot b) = None.
Proof. unfold boot. rewrite seedScene_meteor. reflexivity. Qed.

Lemma step_frame (fi : FrameIn) (s : Scene) :
  step (EvFrame fi) s = fst (frame fi s).
Proof. reflexivity. Qed.

Lemma step_resize (vw vh : R) (s : Scene) :
  step (EvResize vw vh) s = onResize vw vh s.
Proof. reflexivity. Qed.

Lemma step_click (s : Scene) : step EvClick s = onClick s.
Proof. reflexivity. Qed.

Lemma step_pointer (e : PointerEvt) (s : Scene) :
  step (EvPointer e) s = onPointer e s.
Proof. reflexivity. Qed.

Lemma step_meteor (ev : Event) (s : Scene) :
  meteor (step ev s) = meteor s
  \/ meteor (step ev s) = None
  \/ exists fi, ev = EvFrame fi.
Proof.
  destruct ev as [vw vh | e | | b | b | b | fi].
  - left. rewrite step_resize. apply onResize_meteor.
  - left. rewrite step_pointer. apply onPointer_meteor.
  - left. rewrite step_click. apply onClick_meteor.
  - now left.
  - destruct b; [now left | now right; left].
  - now left.
  - right. right. now exists fi.
Qed.

Lemma step_meteorOk (ev : Event) (s : Scene) :
  meteorOk s -> meteorOk (step ev s).
Proof.
  intros Hs m Hm.
  destruct (step_meteor ev s) as [E | [E | [fi ->]]].
  - rewrite E in Hm. now apply Hs.
  - rewrite E in Hm. discriminate.
  - rewrite step_frame in Hm.
    apply frame_meteor_origin in Hm as (Hc & m0 & -> & Hfrom).
    apply cleanupDue_false in Hc as (Hage & _).
    split; [exact Hage|].
    rewrite advanceMeteor_trail_length.
    + apply Nat.le_min_r.
    + destruct Hfrom as [H0 | [H0 _]]; [now apply Hs | rewrite H0; cbn; lia].
Qed.

Lemma reachable_meteorOk (s : Scene) : reachable s -> meteorOk s.
Proof.
  induction 1 as [b | s ev Hr IH].
  - intros m Hm. rewrite boot_meteor in Hm. discriminate.
  - now apply step_meteorOk.
Qed.

Lemma advance_many_length (dts : list R) (m : Meteor) :
  (length (trail m) <= 120)%nat ->
  length (trail (fold_left (fun acc dt => advanceMeteor dt acc) dts m)) =
  Nat.min (length (trail m) + length dts) 120.
Proof.
  revert m. induction dts as [|dt rest IH]; intros m Hle.
  - cbn. lia.
  - cbn [fold_left length]. rewrite IH.
    + rewrite advanceMeteor_trail_length by exact Hle. lia.
    + rewrite advanceMeteor_trail_length by exact Hle. lia.
Qed.

(** C3.  The trail of the meteor of any reachable scene has at most 120
    samples.  One update pushes exactly one sample and then shifts the
    oldest one out if the length passed 120, so after any number of
    updates a trail that started within the cap has
    [min (length + updates) 120] samples. *)
Theorem trail_never_exceeds_cap :
  (forall s m, reachable s -> meteor s = Some m ->
      (length (trail m) <= 120)%nat)
  /\ (forall (dt : R) (m : Meteor),
         trail (advanceMeteor dt m) =
         let pushed := trail m ++ [ {| p_x := m_x (advanceMeteor dt m);
                                       p_y := m_y (advanceMeteor dt m);
                                       p_t := age (advanceMeteor dt m) |} ] in
         if (120 <? length pushed)%nat then tl pushed else pushed)
  /\ (forall (dts : list R) (m : Meteor),
         (length (trail m) <= 120)%nat ->
         length (trail (fold_left (fun acc dt => advanceMeteor dt acc) dts m))
         = Nat.min (length (trail m) + length dts) 120).
Proof.
  split; [|split].
  - intros s m Hr Hm. now apply (reachable_meteorOk s Hr m).
  - reflexivity.
  - apply advance_many_length.
Qed.

(** C4.  In one call of [handleMeteors], take the meteor that is being
    updated (the stored one, or the one spawned by this very call) after
    its age and position were advanced: if its age exceeds its lifespan,
    or it is more than 200 pixels outside the viewport on some side, the
    meteor slot is empty when the call returns; otherwise the advanced
    meteor is stored.  At age = lifespan exactly it is kept. *)
Theorem meteor_cleared_within_one_step :
  forall (now dt : R) (s : Scene) (m : Meteor),
    meteor (spawnPhase now s) = Some m ->
    let m1 := advanceMeteor dt m in
    ((age m1 > life m1
      \/ m_x m1 < -200 \/ m_x m1 > W s + 200
      \/ m_y m1 < -200 \/ m_y m1 > H s + 200) ->
     meteor (fst (handleMeteors now dt s)) = None)
    /\ (Active (W s) (H s) m1 ->
        meteor (fst (handleMeteors now dt s)) = Some m1).
Proof.
  intros now dt s m Hm m1. rewrite handleMeteors_meteor, Hm. fold m1.
  split.
  - intro Hout.
    destruct (cleanupDue (W s) (H s) m1) eqn:Hc; [reflexivity|].
    apply cleanupDue_false in Hc. unfold Active in Hc. lra.
  - intro Hact. apply cleanupDue_false in Hact. now rewrite Hact.
Qed.

Lemma spawnDue_blocked (now : R) (s : Scene) (m : Meteor) :
  meteor s = Some m -> age m <= life m -> spawnDue now s = false.
Proof.
  intros Hm Hage. unfold spawnDue. rewrite Hm.
  assert (Hgt : Rgtb (age m) (life m) = false)
    by (unfold Rgtb; now apply Rltb_false).
  rewrite Hgt. now rewrite andb_false_r.
Qed.

(** C1.  The script keeps its meteor in one nullable global, so a scene
    holds at most one.  In a reachable scene a frame does not call
    [spawnMeteor] when the incoming scene holds an Active meteor; in
    fact a frame that spawns started from an empty meteor slot. *)
Theorem single_meteor_no_spawn_while_active :
  forall s, reachable s ->
    (length (liveMeteors s) <= 1)%nat
    /\ (forall fi m, meteor s = Some m -> Active (W s) (H s) m ->
           spawnCalls (fst (frame fi s)) = spawnCalls s)
    /\ (forall fi, spawnCalls (fst (frame fi s)) <> spawnCalls s ->
           meteor s = None).
Proof.
  intros s Hr. split; [|split].
  - unfold liveMeteors. destruct (meteor s); cbn; lia.
  - intros fi m Hm (Hage & _).
    rewrite frame_spawnCalls.
    now rewrite (spawnDue_blocked _ s m Hm Hage).
  - intros fi Hsp. rewrite frame_spawnCalls in Hsp.
    destruct (meteor s) as [m|] eqn:Hm; [|reflexivity].
    destruct (reachable_meteorOk s Hr m Hm) as [Hage _].
    rewrite (spawnDue_blocked _ s m Hm Hage) in Hsp. now elim Hsp.
Qed.

(** ** Band texture cache *)

Lemma drawStars_no_image (s : Scene) (clock scale : R) (lst : list Star) :
  existsb isDrawImage (drawStars s clock lst scale) = false.
Proof.
  unfold drawStars. cbv zeta.
  induction lst as [|st rest IH]; [reflexivity|].
  cbn [flat_map]. rewrite existsb_app, IH, orb_false_r.
  unfold drawStar. cbv zeta.
  now destruct (Rgtb (s_r st) 1.6 && _).
Qed.

Lemma frame_band_off (fi : FrameIn) (s : Scene) :
  chkMilky s = false ->
  existsb isDrawImage (snd (frame fi s)) = false
  /\ milky (fst (frame fi s)) = milky s
  /\ textureCalls (fst (frame fi s)) = textureCalls s
  /\ chkMilky (fst (frame fi s)) = false.
Proof.
  intro Hoff. unfold frame. cbv zeta.
  rewrite drawMilky_off by exact Hoff.
  set (s2 := set_parallax _ _).
  pose proof (handleMeteors_no_image (f_clockMeteors fi)
                (f_now fi - last s) s2) as Himg.
  pose proof (handleMeteors_milky (f_clockMeteors fi)
                (f_now fi - last s) s2) as Hmilky.
  pose proof (handleMeteors_textureCalls (f_clockMeteors fi)
                (f_now fi - last s) s2) as Hcalls.
  pose proof (handleMeteors_chkMilky (f_clockMeteors fi)
                (f_now fi - last s) s2) as Hchk.
  change (chkMilky s2) with (chkMilky s) in Hchk. rewrite Hoff in Hchk.
  destruct (handleMeteors _ _ s2) as [s4 met]. cbn [fst snd] in *.
  repeat split; try assumption.
  cbn [existsb isDrawImage orb app].
  now rewrite !existsb_app, !drawStars_no_image, Himg.
Qed.

Lemma drawMilky_textureCalls (s : Scene) :
  textureCalls (fst (drawMilky s)) =
  if chkMilky s && stale (milky s) then S (textureCalls s)
  else textureCalls s.
Proof.
  unfold drawMilky, stale.
  destruct (chkMilky s); [|reflexivity].
  cbn [andb].
  destruct (dirty (milky s) || _).
  - destruct (texture (milky (makeMilkyTexture s))); cbn [fst];
      now rewrite makeMilkyTexture_textureCalls.
  - now destruct (texture (milky s)).
Qed.

Lemma frame_textureCalls (fi : FrameIn) (s : Scene) :
  textureCalls (fst (frame fi s)) =
  if chkMilky s && stale (milky s) then S (textureCalls s)
  else textureCalls s.
Proof.
  rewrite frame_state, handleMeteors_textureCalls, drawMilky_textureCalls.
  reflexivity.
Qed.

Lemma step_band_off (ev : Event) (s : Scene) :
  bandOffEvent ev -> chkMilky s = false ->
  milky (step ev s) = milky s
  /\ textureCalls (step ev s) = textureCalls s
  /\ chkMilky (step ev s) = false.
Proof.
  intros Hev Hoff.
  destruct ev as [vw vh | e | | b | b | b | fi]; cbn in Hev; try contradiction.
  - now cbn.
  - now cbn.
  - cbn. unfold onToggleMeteors. now destruct b.
  - subst b. now cbn.
  - cbn [step]. now destruct (frame_band_off fi s Hoff) as (_ & ? & ? & ?).
Qed.

Lemma steps_band_off (evs : list Event) (s : Scene) :
  Forall bandOffEvent evs -> chkMilky s = false ->
  milky (steps evs s) = milky s
  /\ textureCalls (steps evs s) = textureCalls s
  /\ chkMilky (steps evs s) = false.
Proof.
  intros Hall. revert s.
  induction Hall as [|ev rest Hev _ IH]; intros s Hoff.
  - now cbn.
  - cbn [steps fold_left].
    destruct (step_band_off ev s Hev Hoff) as (Hm & Hc & Hk).
    destruct (IH (step ev s) Hk) as (Hm' & Hc' & Hk').
    unfold steps in *. rewrite Hm', Hc', Hm, Hc. now repeat split.
Qed.

(** ** Pointer input *)

Lemma onPointer_target (e : PointerEvt) (s : Scene) :
  targetX (parallax (onPointer e s))
  = pointerX e (W s / 2) / W s * 2 - 1
  /\ targetY (parallax (onPointer e s))
     = pointerY e (H s / 2) / H s * 2 - 1.
Proof. split; reflexivity. Qed.

Lemma normalise_inRange (v size : R) :
  0 < size -> 0 <= v <= size -> inRange (v / size * 2 - 1).
Proof.
  intros Hs [H0 H1]. unfold inRange.
  assert (Hq : 0 <= v / size <= 1).
  { split.
    - apply Rmult_le_pos; [exact H0 | left; now apply Rinv_0_lt_compat].
    - apply Rmult_le_reg_r with size; [exact Hs|].
      unfold Rdiv. rewrite Rmult_assoc, Rinv_l by lra. lra. }
  lra.
Qed.

(** When the coordinates lie within the viewport the target is in
    [[-1,1]] on both axes. *)
Lemma onPointer_inside_viewport (e : PointerEvt) (s : Scene) :
  0 < W s -> 0 < H s ->
  0 <= pointerX e (W s / 2) <= W s ->
  0 <= pointerY e (H s / 2) <= H s ->
  targetInRange (parallax (onPointer e s)).
Proof.
  intros HW HH Hx Hy. unfold targetInRange.
  destruct (onPointer_target e s) as [-> ->].
  split; now apply normalise_inRange.
Qed.

(** Without client coordinates and without a touch point the
    coordinates default to the viewport centre and the target is zero. *)
Lemma onPointer_no_coordinates (e : PointerEvt) (s : Scene) :
  0 < W s -> 0 < H s ->
  clientX e = None -> clientY e = None -> touches e = [] ->
  targetX (parallax (onPointer e s)) = 0
  /\ targetY (parallax (onPointer e s)) = 0.
Proof.
  intros HW HH Hx Hy Ht.
  destruct (onPointer_target e s) as [-> ->].
  unfold pointerX, pointerY. rewrite Hx, Hy, Ht.
  split; field; lra.
Qed.

(** ** The band-field generator *)

Lemma bandLoop_terminates (w h : R) (k : Milky) (count : nat) :
  forall (n : nat) (arr : list Star) (tries i : nat),
    (count * 30 - tries <= n)%nat ->
    (tries <= count * 30)%nat ->
    (length arr <= count)%nat ->
    (length arr <= tries)%nat ->
    exists (arr' : list Star) (tries' j : nat),
      (forall fuel, (n < fuel)%nat ->
         bandLoop fuel w h k count arr tries i = (Some (arr', tries'), j))
      /\ (tries' <= count * 30)%nat
      /\ (length arr' <= count)%nat
      /\ (length arr' <= tries')%nat
      /\ ((length arr' < count)%nat -> tries' = (count * 30)%nat).
Proof.
  induction n as [|n IH]; intros arr tries i Hrem Htries Hlen Hatt.
  - exists arr, tries, i. repeat split; try assumption; [|lia].
    intros [|f] Hf; [lia|]. cbn [bandLoop].
    replace (tries <? count * 30)%nat with false
      by (symmetry; apply Nat.ltb_ge; lia).
    now rewrite andb_false_r.
  - destruct ((length arr <? count) && (tries <? count * 30))%nat eqn:Hcond.
    + apply andb_true_iff in Hcond as [Hl Ht].
      apply Nat.ltb_lt in Hl, Ht.
      destruct (bandAttempt w h k i) as [[st|] i1] eqn:Hatt1.
      * destruct (IH (arr ++ [st]) (S tries) i1) as (arr' & tries' & j & Hrun & Hrest);
          try (rewrite ?length_app; cbn [length]; lia).
        exists arr', tries', j. split; [|exact Hrest].
        intros [|f] Hf; [lia|]. cbn [bandLoop].
        replace ((length arr <? count) && (tries <? count * 30))%nat with true
          by (symmetry; apply andb_true_iff; split; now apply Nat.ltb_lt).
        unfold bind. rewrite Hatt1. apply Hrun. lia.
      * destruct (IH arr (S tries) i1) as (arr' & tries' & j & Hrun & Hrest);
          try lia.
        exists arr', tries', j. split; [|exact Hrest].
        intros [|f] Hf; [lia|]. cbn [bandLoop].
        replace ((length arr <? count) && (tries <? count * 30))%nat with true
          by (symmetry; apply andb_true_iff; split; now apply Nat.ltb_lt).
        unfold bind. rewrite Hatt1. apply Hrun. lia.
    + exists arr, tries, i. repeat split; try assumption.
      * intros [|f] Hf; [lia|]. cbn [bandLoop]. now rewrite Hcond.
      * intro Hshort. apply andb_false_iff in Hcond as [Hc | Hc];
          apply Nat.ltb_ge in Hc; lia.
Qed.

(** C2.  For every count, [makeBandStars] returns: the loop needs no
    more than [30 * count + 1] units of fuel whatever the draws are.  It
    makes at most [30 * count] attempts, returns at most [count] stars
    and no more stars than attempts, and when it returns fewer than
    [count] stars it has made exactly [30 * count] attempts. *)
Theorem makeBandStars_within_budget :
  forall (w h : R) (k : Milky) (count i : nat),
    exists (arr : list Star) (tries j : nat),
      (forall fuel, (count * 30 < fuel)%nat ->
         makeBandStars_fuel fuel w h k count i = (Some (arr, tries), j))
      /\ makeBandStars w h k count i = (arr, j)
      /\ (tries <= 30 * count)%nat
      /\ (length arr <= count)%nat
      /\ (length arr <= tries)%nat
      /\ ((length arr < count)%nat -> tries = (30 * count)%nat).
Proof.
  intros w h k count i.
  destruct (bandLoop_terminates w h k count (count * 30) [] O i)
    as (arr & tries & j & Hrun & Ht & Hl & Ha & Hshort);
    try (cbn [length]; lia).
  exists arr, tries, j.
  split; [exact Hrun|].
  split.
  { unfold makeBandStars, bind, makeBandStars_fuel.
    now rewrite (Hrun (S (count * 30))) by lia. }
  repeat split; try assumption; lia.
Qed.

(** ** The general-field generator *)

Lemma Math_pow_strict_mono (a b e : R) :
  0 <= a < b -> 0 < e -> Math_pow a e < Math_pow b e.
Proof.
  intros [Ha Hab] He. unfold Math_pow.
  destruct (Rlt_dec 0 b) as [_|Hb]; [|lra].
  destruct (Rlt_dec 0 a) as [Hpos|_].
  - apply Rlt_Rpower_l; [exact He | lra].
  - unfold Rpower. apply exp_pos.
Qed.

(** Between the square and the identity on [(0,1)]. *)
Lemma Math_pow_fraction (x : R) :
  0 < x < 1 -> x * x <= Math_pow x 1.2 <= x.
Proof.
  intros [H0 H1]. unfold Math_pow.
  destruct (Rlt_dec 0 x) as [_|Hn]; [|lra].
  assert (Hln : ln x < 0) by (rewrite <- ln_1; now apply ln_increasing).
  assert (E1 : Rpower x 1 = x) by now apply Rpower_1.
  assert (E2 : Rpower x 2 = x * x).
  { replace 2 with (1 + 1) by lra. now rewrite Rpower_plus, E1. }
  assert (Hb : Rpower x 2 <= Rpower x 1.2 <= Rpower x 1)
    by (unfold Rpower; split; left; apply exp_increasing; nra).
  now rewrite E1, E2 in Hb.
Qed.

Lemma starRadius_decreasing (jitter d1 d2 : R) :
  0 < jitter -> d1 < d2 <= 1 ->
  starRadius d2 jitter < starRadius d1 jitter.
Proof.
  intros Hj [Hd H1]. unfold starRadius.
  assert (Hp : Math_pow (1 - d2) 1.2 < Math_pow (1 - d1) 1.2)
    by (apply Math_pow_strict_mono; lra).
  nra.
Qed.

Lemma makeStar_shape (w h lo hi : R) (i : nat) :
  let st := fst (makeStar w h lo hi i) in
  depth st = fst (rand lo hi i)
  /\ s_r st = starRadius (depth st) (fst (rand 0.6 1.8 (S i))).
Proof. split; reflexivity. Qed.

Lemma makeStars_from_In (w h lo hi : R) (n : nat) :
  forall (arr : list Star) (i : nat) (st : Star),
    In st (fst (makeStars_from w h n lo hi arr i)) ->
    In st arr \/ exists j, st = fst (makeStar w h lo hi j).
Proof.
  induction n as [|n IH]; intros arr i st Hin.
  - now left.
  - cbn [makeStars_from] in Hin. unfold bind in Hin.
    destruct (makeStar w h lo hi i) as [st0 i1] eqn:E.
    apply IH in Hin as [Hin | Hnew]; [|now right].
    apply in_app_or in Hin as [Hin | [<- | []]]; [now left|].
    right. exists i. now rewrite E.
Qed.

Lemma makeStars_from_length (w h lo hi : R) (n : nat) :
  forall (arr : list Star) (i : nat),
    length (fst (makeStars_from w h n lo hi arr i)) = (length arr + n)%nat.
Proof.
  induction n as [|n IH]; intros arr i.
  - cbn. lia.
  - cbn [makeStars_from]. unfold bind.
    destruct (makeStar w h lo hi i) as [st0 i1].
    rewrite IH, length_app. cbn [length]. lia.
Qed.

Lemma starRadius_nonincreasing (jitter d1 d2 : R) :
  0 <= jitter -> d1 <= d2 <= 1 ->
  starRadius d2 jitter <= starRadius d1 jitter.
Proof.
  intros Hj [[Hlt | ->] H1]; [|lra].
  destruct Hj as [Hj | <-].
  - left. apply starRadius_decreasing; [exact Hj | now split].
  - unfold starRadius. lra.
Qed.

(** C6 (amended).  [makeStars] returns [count] stars.  When
    [minDepth <= maxDepth <= 1], each has its depth in
    [[minDepth, maxDepth]] and the radius
    [(1 - depth)^1.2 * jitter + 0.3] for a jitter of its own in
    [[0.6, 1.8]].  For one and the same jitter the radius does not
    increase with the depth (up to depth 1); the jitter differs from
    star to star. *)
Theorem general_star_depth_and_radius :
  forall (w h : R) (count : nat) (minDepth maxDepth : R) (i : nat),
    minDepth <= maxDepth <= 1 ->
    length (fst (makeStars w h count minDepth maxDepth i)) = count
    /\ (forall st, In st (fst (makeStars w h count minDepth maxDepth i)) ->
          minDepth <= depth st <= maxDepth
          /\ exists jitter, 0.6 <= jitter <= 1.8
               /\ s_r st = starRadius (depth st) jitter)
    /\ (forall jitter d1 d2, 0.6 <= jitter -> d1 <= d2 <= 1 ->
          starRadius d2 jitter <= starRadius d1 jitter).
Proof.
  intros w h count lo hi i [Hle Hone]. split; [|split].
  - unfold makeStars. now rewrite makeStars_from_length.
  - intros st Hin. unfold makeStars in Hin.
    apply makeStars_from_In in Hin as [[] | [j ->]].
    destruct (makeStar_shape w h lo hi j) as [-> ->].
    split; [now apply rand_range|].
    eexists. split; [|reflexivity].
    apply rand_range. lra.
  - intros jitter d1 d2 Hj Hd. apply starRadius_nonincreasing; lra.
Qed.

(** ** The retry loops of [gaussian] *)

Lemma draw_until_nonzero_first (fuel : nat) :
  forall i, draw rs (i + fuel)%nat <> 0 ->
    exists j, (i <= j <= i + fuel)%nat
      /\ draw_until_nonzero fuel i = (draw rs j, S j)
      /\ draw rs j <> 0
      /\ forall k, (i <= k < j)%nat -> draw rs k = 0.
Proof.
  induction fuel as [|f IH]; intros i Hnz.
  - exists i. rewrite Nat.add_0_r in Hnz.
    split; [lia|]. split; [reflexivity|]. split; [exact Hnz|].
    intros k Hk. lia.
  - cbn [draw_until_nonzero].
    destruct (Req_dec_T (draw rs i) 0) as [Hz | Hn].
    + destruct (IH (S i)) as (j & Hj & Hrun & Hjn & Hzero).
      { now replace (S i + f)%nat with (i + S f)%nat by lia. }
      exists j.
      split; [lia|]. split; [exact Hrun|]. split; [exact Hjn|].
      intros k Hk. destruct (Nat.eq_dec k i) as [-> | Hne]; [exact Hz|].
      apply Hzero. lia.
    + exists i.
      split; [lia|]. split; [reflexivity|]. split; [exact Hn|].
      intros k Hk. lia.
Qed.

(** [nonzero_random] returns the first draw at or after the cursor that
    is not zero, having consumed every draw up to it: what the loop
    [while (u === 0) u = Math.random()] does. *)
Lemma nonzero_random_first (i : nat) :
  exists j, (i <= j)%nat
    /\ nonzero_random i = (draw rs j, S j)
    /\ draw rs j <> 0
    /\ forall k, (i <= k < j)%nat -> draw rs k = 0.
Proof.
  destruct (draw_until_nonzero_first (gap rs i) i (gap_nonzero rs i))
    as (j & Hj & Hrun & Hnz & Hzero).
  exists j.
  split; [lia|]. split; [exact Hrun|]. split; [exact Hnz | exact Hzero].
Qed.

Lemma nonzero_random_hit (i : nat) :
  draw rs i <> 0 -> nonzero_random i = (draw rs i, S i).
Proof.
  intro Hnz. unfold nonzero_random.
  destruct (gap rs i) as [|f]; cbn [draw_until_nonzero]; [reflexivity|].
  now destruct (Req_dec_T (draw rs i) 0).
Qed.

(** ** The scene after boot *)

Lemma seedScene_meteor_inputs (s : Scene) :
  W (seedScene s) = W s /\ H (seedScene s) = H s
  /\ chkMeteors (seedScene s) = chkMeteors s
  /\ nextMeteorAt (seedScene s) = nextMeteorAt s
  /\ last (seedScene s) = last s.
Proof. repeat split; revert s; keep_field. Qed.

Lemma boot_globals (b : BootEnv) :
  W (boot b) = innerWidth b /\ H (boot b) = innerHeight b
  /\ chkMeteors (boot b) = meteorsChecked b
  /\ nextMeteorAt (boot b)
     = clock0 b + (draw rs O * (METEOR_MAX_GAP - METEOR_MIN_GAP)
                   + METEOR_MIN_GAP)
  /\ last (boot b) = clock1 b.
Proof.
  unfold boot.
  destruct (seedScene_meteor_inputs
              (resize (innerWidth b) (innerHeight b) (initialGlobals b)))
    as (-> & -> & -> & -> & ->).
  repeat split; reflexivity.
Qed.

Lemma drawMilky_size (s : Scene) :
  W (fst (drawMilky s)) = W s /\ H (fst (drawMilky s)) = H s.
Proof.
  destruct (drawMilky_cases s) as [-> | ->]; [now split|].
  pose proof (makeMilkyTexture_size s) as E. cbv beta in E.
  injection E as EW EH. now split.
Qed.

Lemma frame_size (fi : FrameIn) (s : Scene) :
  W (fst (frame fi s)) = W s /\ H (fst (frame fi s)) = H s.
Proof.
  rewrite frame_state, handleMeteors_state. cbv zeta.
  set (s2 := set_parallax _ _).
  pose proof (spawnPhase_size (f_clockMeteors fi) (fst (drawMilky s2))) as E.
  cbv beta in E. injection E as EW EH.
  destruct (drawMilky_size s2) as [HW HH].
  change (W s2) with (W s) in HW. change (H s2) with (H s) in HH.
  destruct (meteor (spawnPhase (f_clockMeteors fi) (fst (drawMilky s2))));
    cbn; rewrite ?EW, ?EH; now split.
Qed.

Lemma spawnDue_ready (now : R) (s : Scene) :
  chkMeteors s = true -> meteor s = None -> nextMeteorAt s <= now ->
  spawnDue now s = true.
Proof.
  intros Hchk Hnone Hnext. unfold spawnDue. rewrite Hchk, Hnone.
  cbn [andb]. unfold Rgeb. now apply Rleb_true.
Qed.

(** A frame in which the spawn test passes stores the spawned meteor,
    advanced by the frame's time step, unless the cleanup removes it. *)
Lemma frame_spawns (fi : FrameIn) (s : Scene) :
  spawnDue (f_clockMeteors fi) s = true ->
  exists a j,
    meteor (fst (frame fi s)) =
    if cleanupDue (W s) (H s)
         (advanceMeteor (f_now fi - last s)
            (fst (spawnMeteorGen (W s) (H s) a j)))
    then None
    else Some (advanceMeteor (f_now fi - last s)
                 (fst (spawnMeteorGen (W s) (H s) a j))).
Proof.
  intro Hdue.
  rewrite frame_state, handleMeteors_meteor, spawnPhase_meteor.
  rewrite drawMilky_spawnDue.
  set (s2 := set_parallax _ _).
  change (spawnDue (f_clockMeteors fi) s2) with (spawnDue (f_clockMeteors fi) s).
  rewrite Hdue.
  destruct (drawMilky_size s2) as [-> ->].
  exists (angle (milky (fst (drawMilky s2)))), (cursor (fst (drawMilky s2))).
  reflexivity.
Qed.

(** * Further properties of the script *)

(** ** Utilities *)

Lemma Math_floor_bounds (v : R) :
  Math_floor v <= v < Math_floor v + 1.
Proof.
  unfold Math_floor. destruct (base_Int_part v) as [Hlo Hhi]. lra.
Qed.

Lemma Math_floor_whole (lo hi : Z) (v : R) :
  IZR lo <= v -> v < IZR hi + 1 -> wholeBetween lo hi (Math_floor v).
Proof.
  intros Hlo Hhi.
  destruct (Math_floor_bounds v) as [Hf1 Hf2].
  exists (Int_part v). split; [reflexivity|].
  unfold Math_floor in Hf1, Hf2. split.
  - apply Z.lt_succ_r. apply lt_IZR. rewrite succ_IZR. lra.
  - apply Z.lt_succ_r. apply lt_IZR. rewrite succ_IZR. lra.
Qed.

Lemma randInt_floor (lo hi : R) (i : nat) :
  randInt lo hi i = (Math_floor (fst (rand lo (hi + 1) i)), S i).
Proof. reflexivity. Qed.

(** [randInt(min, max)] is a whole number from [min] to [max + 1]. *)
Lemma randInt_whole (lo hi : Z) (i : nat) :
  (lo <= hi)%Z ->
  wholeBetween lo (hi + 1) (fst (randInt (IZR lo) (IZR hi) i)).
Proof.
  intro Hle. rewrite randInt_floor. cbn [fst].
  apply IZR_le in Hle.
  destruct (rand_range (IZR lo) (IZR hi + 1) i) as [Hlo Hhi]; [lra|].
  apply Math_floor_whole; [exact Hlo|]. rewrite plus_IZR. lra.
Qed.

(** X1.  [rand(min, max)] with [min <= max] returns a number from
    [min] to [max], both ends included, and uses one draw.
    [randInt(min, max)] on whole numbers [min <= max] is the floor of
    [rand(min, max + 1)], from the same single draw: a whole number
    from [min] to [max + 1], and at most [max] whenever that [rand]
    call returns less than [max + 1]. *)
Theorem rand_and_randInt_ranges :
  (forall (lo hi : R) (i : nat), lo <= hi ->
      lo <= fst (rand lo hi i) <= hi /\ snd (rand lo hi i) = S i)
  /\ (forall (lo hi : Z) (i : nat), (lo <= hi)%Z ->
         fst (randInt (IZR lo) (IZR hi) i)
         = Math_floor (fst (rand (IZR lo) (IZR hi + 1) i))
         /\ wholeBetween lo (hi + 1) (fst (randInt (IZR lo) (IZR hi) i))
         /\ (fst (rand (IZR lo) (IZR hi + 1) i) < IZR hi + 1 ->
             wholeBetween lo hi (fst (randInt (IZR lo) (IZR hi) i)))
         /\ snd (randInt (IZR lo) (IZR hi) i) = S i).
Proof.
  split.
  - intros lo hi i Hle. split; [now apply rand_range | reflexivity].
  - intros lo hi i Hle.
    split; [reflexivity|]. split; [now apply randInt_whole|].
    split; [|reflexivity].
    intro Hlt. rewrite randInt_floor. cbn [fst].
    apply Math_floor_whole; [|exact Hlt].
    apply IZR_le in Hle. apply rand_range. lra.
Qed.

Lemma clamp_inside (v a b : R) : a <= v <= b -> clamp v a b = v.
Proof.
  intros [Ha Hb]. unfold clamp, Math_max, Math_min.
  rewrite Rmin_right by lra. now rewrite Rmax_right by lra.
Qed.

Lemma clamp_high (v a b : R) : a <= b -> b <= v -> clamp v a b = b.
Proof.
  intros Hab Hv. unfold clamp, Math_max, Math_min.
  rewrite Rmin_left by lra. now rewrite Rmax_right by lra.
Qed.

Lemma clamp_monotone (v1 v2 a b : R) :
  v1 <= v2 -> clamp v1 a b <= clamp v2 a b.
Proof.
  intro Hle. unfold clamp, Math_max, Math_min.
  apply Rle_max_compat_l. now apply Rle_min_compat_l.
Qed.

(** X2.  [clamp(v, a, b)] with [a <= b] lies in [[a, b]], is the
    identity on [[a, b]], sticks to the nearer bound outside, does not
    decrease when [v] grows, and clamping twice is clamping once.  With
    the bounds swapped ([b < a]) it returns [a] whatever [v] is. *)
Theorem clamp_behaviour :
  forall (v a b : R),
    (a <= b ->
       a <= clamp v a b <= b
       /\ (a <= v <= b -> clamp v a b = v)
       /\ (v <= a -> clamp v a b = a)
       /\ (b <= v -> clamp v a b = b)
       /\ clamp (clamp v a b) a b = clamp v a b)
    /\ (forall v', v <= v' -> clamp v a b <= clamp v' a b)
    /\ (b < a -> clamp v a b = a).
Proof.
  intros v a b. split; [|split].
  - intro Hab. split; [now apply clamp_range|].
    split; [apply clamp_inside|].
    split; [now apply clamp_low|].
    split; [now apply clamp_high|].
    apply clamp_inside. now apply clamp_range.
  - intros v' Hle. now apply clamp_monotone.
  - intro Hba. unfold clamp, Math_max, Math_min.
    apply Rmax_left. pose proof (Rmin_l b v). lra.
Qed.

(** X3.  [gaussian()] takes its two uniform numbers from the first
    non-zero draws at or after the cursor, skipping the zero draws in
    between: both lie strictly between 0 and 1, so the logarithm is
    taken of a positive number and the square root of a positive one. *)
Theorem gaussian_uses_nonzero_draws :
  forall i : nat,
    exists ju jv : nat,
      (i <= ju < jv)%nat
      /\ gaussian i
         = (Math_sqrt (-2.0 * Math_log (draw rs ju))
            * Math_cos (2.0 * PI * draw rs jv), S jv)
      /\ 0 < draw rs ju < 1 /\ 0 < draw rs jv < 1
      /\ 0 < -2.0 * Math_log (draw rs ju)
      /\ (forall k, (i <= k < jv)%nat -> k <> ju -> draw rs k = 0).
Proof.
  intro i.
  destruct (nonzero_random_first i) as (ju & Hiu & Hu & Hunz & Huz).
  destruct (nonzero_random_first (S ju)) as (jv & Hiv & Hv & Hvnz & Hvz).
  exists ju, jv.
  pose proof (draw_range rs ju) as [Hu0 Hu1].
  pose proof (draw_range rs jv) as [Hv0 Hv1].
  split; [lia|]. split.
  { unfold gaussian, bind. rewrite Hu, Hv. reflexivity. }
  split; [lra|]. split; [lra|]. split.
  - assert (Hln : Math_log (draw rs ju) < 0).
    { unfold Math_log. rewrite <- ln_1. apply ln_increasing; lra. }
    lra.
  - intros k Hk Hne.
    destruct (Nat.lt_ge_cases k ju) as [Hlt | Hge].
    + apply Huz. lia.
    + apply Hvz. lia.
Qed.

(** X4.  The pixel-ratio cap: [DPR] never exceeds 2; a missing or zero
    [devicePixelRatio] counts as 1, a ratio up to 2 is taken as it is
    and a larger one is cut to 2. *)
Theorem DPR_capped :
  DPR <= 2
  /\ (devicePixelRatio = 0 -> DPR = 1)
  /\ (devicePixelRatio <> 0 -> devicePixelRatio <= 2 ->
      DPR = devicePixelRatio)
  /\ (2 <= devicePixelRatio -> DPR = 2).
Proof.
  unfold DPR, Math_min.
  destruct (Req_dec_T devicePixelRatio 0) as [Hz | Hnz].
  - split; [apply Rmin_r|]. split; [intros _; apply Rmin_left; lra|].
    split; [intro Hc; now elim Hc | intro Hge; lra].
  - split; [apply Rmin_r|]. split; [intro Hc; now elim Hnz|].
    split; [intros _ Hle; now apply Rmin_left|].
    intro Hge. now apply Rmin_right.
Qed.

(** ** The general star field *)

Lemma makeStar_fields (w h lo hi : R) (i : nat) :
  0 <= w -> 0 <= h ->
  let st := fst (makeStar w h lo hi i) in
  0 <= s_x st <= w /\ 0 <= s_y st <= h
  /\ 0.25 <= baseAlpha st <= 0.85
  /\ 0.6 <= twinkleSpeed st <= 1.8
  /\ 0 <= phase st <= TWO_PI
  /\ exists tone, 210 <= tone <= 265
       /\ color st = HSL tone 90 92 /\ glow st = HSLA tone 100 80 0.95.
Proof.
  intros Hw Hh. unfold makeStar, bind, Math_random.
  repeat (rewrite rand_value; cbv beta iota zeta). unfold ret. cbn.
  pose proof (draw_range rs (S (S i))) as [? ?].
  pose proof (draw_range rs (S (S (S i)))) as [? ?].
  pose proof (draw_range rs (S (S (S (S i))))) as [? ?].
  pose proof (draw_range rs (S (S (S (S (S i)))))) as [? ?].
  pose proof (draw_range rs (S (S (S (S (S (S i))))))) as [? ?].
  pose proof (draw_range rs (S (S (S (S (S (S (S i)))))))) as [? ?].
  pose proof PI_RGT_0 as Hpi. unfold TWO_PI.
  repeat split; try nra.
  eexists. split; [|split; reflexivity]. nra.
Qed.

Lemma makeStar_cursor (w h lo hi : R) (i : nat) :
  snd (makeStar w h lo hi i) = (i + 8)%nat.
Proof.
  unfold makeStar, bind, Math_random.
  repeat (rewrite rand_value; cbv beta iota zeta). unfold ret. cbn. lia.
Qed.

Lemma makeStars_from_cursor (w h lo hi : R) (n : nat) :
  forall (arr : list Star) (i : nat),
    snd (makeStars_from w h n lo hi arr i) = (i + 8 * n)%nat.
Proof.
  induction n as [|n IH]; intros arr i.
  - cbn. lia.
  - cbn [makeStars_from]. unfold bind.
    pose proof (makeStar_cursor w h lo hi i) as Hc.
    destruct (makeStar w h lo hi i) as [st0 i1]. cbn [snd] in Hc.
    rewrite IH, Hc. lia.
Qed.

(** X5.  [makeStars(count, ...)] uses exactly eight draws per star.  In
    a viewport of non-negative size every star it returns lies inside
    the viewport, has a base opacity in [[0.25, 0.85]], a twinkle speed
    in [[0.6, 1.8]], a phase in [[0, 2 pi]] and one hue in [[210, 265]]
    shared by its colour and its glow. *)
Theorem makeStars_fields :
  forall (w h : R) (count : nat) (minDepth maxDepth : R) (i : nat),
    0 <= w -> 0 <= h ->
    snd (makeStars w h count minDepth maxDepth i) = (i + 8 * count)%nat
    /\ forall st, In st (fst (makeStars w h count minDepth maxDepth i)) ->
         0 <= s_x st <= w /\ 0 <= s_y st <= h
         /\ 0.25 <= baseAlpha st <= 0.85
         /\ 0.6 <= twinkleSpeed st <= 1.8
         /\ 0 <= phase st <= TWO_PI
         /\ exists tone, 210 <= tone <= 265
              /\ color st = HSL tone 90 92
              /\ glow st = HSLA tone 100 80 0.95.
Proof.
  intros w h count lo hi i Hw Hh. split.
  - unfold makeStars. apply makeStars_from_cursor.
  - intros st Hin. unfold makeStars in Hin.
    apply makeStars_from_In in Hin as [[] | [j ->]].
    now apply makeStar_fields.
Qed.

Lemma Math_pow_nonneg (b e : R) : 0 <= Math_pow b e.
Proof.
  unfold Math_pow. destruct (Rlt_dec 0 b); [|lra].
  unfold Rpower. left. apply exp_pos.
Qed.

Lemma Math_pow_monotone (a b e : R) :
  0 <= a <= b -> 0 < e -> Math_pow a e <= Math_pow b e.
Proof.
  intros [Ha Hab] He.
  destruct (Req_dec_T a b) as [-> | Hne]; [lra|].
  left. apply Math_pow_strict_mono; lra.
Qed.

(** X6.  With [minDepth <= maxDepth <= 1], every star of [makeStars]
    has a radius of at least 0.3 and at most
    [0.3 + 1.8 * (1 - minDepth)^1.2]; for the depths 0.2 to 1.0 used by
    [seedScene] that is a radius between 0.3 and 1.74. *)
Theorem general_star_radius_bounds :
  (forall (w h : R) (count : nat) (minDepth maxDepth : R) (i : nat) st,
      minDepth <= maxDepth -> maxDepth <= 1 ->
      In st (fst (makeStars w h count minDepth maxDepth i)) ->
      0.3 <= s_r st <= 0.3 + 1.8 * Math_pow (1 - minDepth) 1.2)
  /\ (forall (w h : R) (count i : nat) st,
         In st (fst (makeStars w h count 0.2 1.0 i)) ->
         0.3 <= s_r st <= 1.74).
Proof.
  assert (Hgen : forall (w h : R) (count : nat) (lo hi : R) (i : nat) st,
             lo <= hi -> hi <= 1 ->
             In st (fst (makeStars w h count lo hi i)) ->
             0.3 <= s_r st <= 0.3 + 1.8 * Math_pow (1 - lo) 1.2).
  { intros w h count lo hi i st Hle H1 Hin. unfold makeStars in Hin.
    apply makeStars_from_In in Hin as [[] | [j ->]].
    destruct (makeStar_shape w h lo hi j) as [Hd ->]. rewrite Hd.
    pose proof (rand_range lo hi j Hle) as [Hd0 Hd1].
    assert (Hj : 0.6 <= fst (rand 0.6 1.8 (S j)) <= 1.8)
      by (apply rand_range; lra).
    unfold starRadius.
    pose proof (Math_pow_nonneg (1 - fst (rand lo hi j)) 1.2) as Hp0.
    assert (Hp1 : Math_pow (1 - fst (rand lo hi j)) 1.2
                  <= Math_pow (1 - lo) 1.2)
      by (apply Math_pow_monotone; lra).
    split; nra. }
  split; [exact Hgen|].
  intros w h count i st Hin.
  destruct (Hgen w h count 0.2 1.0 i st) as [H0 H1]; try lra; [exact Hin|].
  split; [exact H0|].
  assert (Hp : Math_pow (1 - 0.2) 1.2 <= 0.8).
  { replace (1 - 0.2) with 0.8 by lra. apply Math_pow_fraction. lra. }
  lra.
Qed.

(** ** The band star field *)

Lemma exp_nonpos (v : R) : v <= 0 -> 0 < Math_exp v <= 1.
Proof.
  intro Hv. unfold Math_exp. split; [apply exp_pos|].
  rewrite <- exp_0. destruct Hv as [Hlt | ->]; [|lra].
  left. now apply exp_increasing.
Qed.

Lemma falloff_range (d wd : R) :
  0 < wd -> 0 < Math_exp (- (d * d) / (2 * Math_pow wd 2)) <= 1.
Proof.
  intro Hw. apply exp_nonpos.
  assert (Hp : 0 < Math_pow wd 2).
  { unfold Math_pow. destruct (Rlt_dec 0 wd); [|lra].
    unfold Rpower. apply exp_pos. }
  assert (Hq : 0 <= d * d / (2 * Math_pow wd 2)).
  { apply Rmult_le_pos; [nra|]. left. apply Rinv_0_lt_compat. lra. }
  unfold Rdiv in *. rewrite Ropp_mult_distr_l_reverse. lra.
Qed.

Lemma bandAttempt_fields (w h : R) (k : Milky) (i i' : nat) (st : Star) :
  bandAttempt w h k i = (Some st, i') ->
  -50 <= s_x st <= w + 50 /\ -50 <= s_y st <= h + 50
  /\ 0.1 <= depth st <= 0.95
  /\ 0.25 <= baseAlpha st <= 1
  /\ 0.5 <= twinkleSpeed st <= 1.5
  /\ 0 <= phase st <= TWO_PI
  /\ (exists tone, 200 <= tone <= 250
        /\ color st = HSL tone 95 95 /\ glow st = HSLA tone 100 85 0.95)
  /\ (0 < width k -> 0.48 <= s_r st <= 3.96 /\ 0.3 <= baseAlpha st).
Proof.
  unfold bandAttempt. cbv zeta. unfold bind at 1. rewrite rand_value.
  unfold bind at 1. destruct (gaussian (S i)) as [g i1].
  set (d := g * (width k * 0.35)).
  set (t := draw rs i * (Math_hypot w h - - Math_hypot w h)
            + - Math_hypot w h).
  set (x := w / 2 + Math_cos (angle k) * t + - Math_sin (angle k) * d).
  set (y := h / 2 + Math_sin (angle k) * t + Math_cos (angle k) * d).
  destruct (Rltb x (-50) || Rgtb x (w + 50) || Rltb y (-50)
            || Rgtb y (h + 50)) eqn:Hrej.
  - unfold ret. discriminate.
  - unfold bind. repeat (rewrite rand_value; cbv beta iota zeta).
    unfold ret. intros [= <- <-]. cbn.
    apply orb_false_iff in Hrej as [Hrej Hy2].
    apply orb_false_iff in Hrej as [Hrej Hy1].
    apply orb_false_iff in Hrej as [Hx1 Hx2].
    unfold Rgtb in *. apply Rltb_false in Hx1, Hx2, Hy1, Hy2.
    pose proof (draw_range rs i1) as [? ?].
    pose proof (draw_range rs (S i1)) as [? ?].
    pose proof (draw_range rs (S (S i1))) as [? ?].
    pose proof (draw_range rs (S (S (S i1)))) as [? ?].
    pose proof PI_RGT_0 as Hpi. unfold TWO_PI.
    split; [lra|]. split; [lra|].
    split; [apply clamp_range; lra|].
    split; [apply clamp_range; lra|].
    split; [lra|]. split; [nra|].
    split.
    { eexists. split; [|split; reflexivity]. lra. }
    intro Hwd.
    destruct (falloff_range d (width k * 0.45)) as [Hf0 Hf1]; [lra|].
    set (f := Math_exp (- (d * d) / (2 * Math_pow (width k * 0.45) 2))) in *.
    split; [split; nra|].
    rewrite clamp_inside; lra.
Qed.

Lemma bandLoop_In (w h : R) (k : Milky) (count : nat) :
  forall (fuel : nat) (arr : list Star) (tries i : nat) arr' tries' j st,
    bandLoop fuel w h k count arr tries i = (Some (arr', tries'), j) ->
    In st arr' ->
    In st arr \/ exists a a', bandAttempt w h k a = (Some st, a').
Proof.
  induction fuel as [|f IH]; intros arr tries i arr' tries' j st Hrun Hin.
  - discriminate.
  - cbn [bandLoop] in Hrun.
    destruct ((length arr <? count) && (tries <? count * 30))%nat.
    + unfold bind in Hrun.
      destruct (bandAttempt w h k i) as [[st0|] i1] eqn:Hatt.
      * destruct (IH _ _ _ _ _ _ st Hrun Hin) as [Hold | Hnew];
          [|now right].
        apply in_app_or in Hold as [Hold | [<- | []]]; [now left|].
        right. now exists i, i1.
      * now apply (IH _ _ _ _ _ _ st Hrun Hin).
    + unfold ret in Hrun. injection Hrun as <- _ _. now left.
Qed.

Lemma makeBandStars_In (w h : R) (k : Milky) (count i : nat) (st : Star) :
  In st (fst (makeBandStars w h k count i)) ->
  exists a a', bandAttempt w h k a = (Some st, a').
Proof.
  unfold makeBandStars, bind, makeBandStars_fuel.
  destruct (bandLoop (S (count * 30)) w h k count [] O i)
    as [[[arr tries]|] j] eqn:Hrun; cbn [fst ret]; [|intros []].
  intro Hin.
  destruct (bandLoop_In w h k count _ _ _ _ _ _ _ st Hrun Hin) as [[] | Hnew].
  exact Hnew.
Qed.

(** X7.  For a band of positive width, every star returned by
    [makeBandStars] lies within 50 pixels of the viewport, has a depth
    in [[0.1, 0.95]], a base opacity in [[0.3, 1]], a radius in
    [[0.48, 3.96]], a twinkle speed in [[0.5, 1.5]], a phase in
    [[0, 2 pi]] and one hue in [[200, 250]] shared by its colour and
    its glow. *)
Theorem band_star_fields :
  forall (w h : R) (k : Milky) (count i : nat) (st : Star),
    0 < width k ->
    In st (fst (makeBandStars w h k count i)) ->
    -50 <= s_x st <= w + 50 /\ -50 <= s_y st <= h + 50
    /\ 0.1 <= depth st <= 0.95
    /\ 0.3 <= baseAlpha st <= 1
    /\ 0.48 <= s_r st <= 3.96
    /\ 0.5 <= twinkleSpeed st <= 1.5
    /\ 0 <= phase st <= TWO_PI
    /\ (exists tone, 200 <= tone <= 250
          /\ color st = HSL tone 95 95 /\ glow st = HSLA tone 100 85 0.95).
Proof.
  intros w h k count i st Hwd Hin.
  apply makeBandStars_In in Hin as (a & a' & Hatt).
  destruct (bandAttempt_fields w h k a a' st Hatt)
    as (Hx & Hy & Hd & Hb & Hts & Hph & Htone & Hpos).
  destruct (Hpos Hwd) as (Hr & Hb3).
  split; [exact Hx|]. split; [exact Hy|]. split; [exact Hd|].
  split; [split; [exact Hb3 | apply Hb]|].
  split; [exact Hr|]. split; [exact Hts|]. split; [exact Hph|].
  exact Htone.
Qed.

(** ** The band texture *)

Lemma cloudNodes_step (w h : R) (k : Milky) (n : nat)
    (acc : list Blob) (i : nat) :
  exists (b : Blob) (i2 : nat),
    blobOk b
    /\ cloudNodes (S n) w h k acc i = cloudNodes n w h k (acc ++ [b]) i2.
Proof.
  cbn [cloudNodes]. cbv zeta. unfold bind. rewrite rand_value.
  destruct (gaussian (S i)) as [g i1]. rewrite rand_value.
  destruct (gaussian (S i1)) as [g2 i2].
  eexists. exists i2. split; [|reflexivity].
  unfold blobOk. cbn. split.
  - apply clamp_range. lra.
  - unfold Math_abs. pose proof (Rabs_pos g2). lra.
Qed.

Lemma cloudNodes_blobs (w h : R) (k : Milky) (n : nat) :
  forall (acc : list Blob) (i : nat),
    Forall blobOk acc ->
    length (fst (cloudNodes n w h k acc i)) = (length acc + n)%nat
    /\ Forall blobOk (fst (cloudNodes n w h k acc i)).
Proof.
  induction n as [|n IH]; intros acc i Hacc.
  - cbn. split; [lia | exact Hacc].
  - destruct (cloudNodes_step w h k n acc i) as (b & i2 & Hb & ->).
    destruct (IH (acc ++ [b]) i2) as [Hlen Hall].
    { apply Forall_app. split; [exact Hacc|].
      constructor; [exact Hb | constructor]. }
    split; [|exact Hall].
    rewrite Hlen, length_app. cbn [length]. lia.
Qed.

Lemma makeMilkyTexture_stars (s : Scene) :
  stars (makeMilkyTexture s) = stars s
  /\ bandStars (makeMilkyTexture s) = bandStars s.
Proof. split; revert s; keep_field. Qed.

Lemma makeMilkyTexture_band (s : Scene) :
  angle (milky (makeMilkyTexture s)) = angle (milky s)
  /\ width (milky (makeMilkyTexture s)) = width (milky s)
  /\ dirty (milky (makeMilkyTexture s)) = false
  /\ texture (milky (makeMilkyTexture s)) <> None.
Proof.
  unfold makeMilkyTexture, run.
  destruct (cloudNodes _ _ _ _ _ _) as [blobs j]. cbn.
  repeat split. discriminate.
Qed.

(** X8.  [makeMilkyTexture] stores a new texture of exactly 800 blobs,
    each with a centre alpha in [[0.004, 0.05]] and a radius of at least
    6 pixels, on a raster of at least 1 x 1 pixels and, for a viewport
    of non-negative size, of at most twice the viewport in each
    direction; it clears the dirty flag and leaves angle and width of
    the band alone. *)
Theorem makeMilkyTexture_result :
  forall s : Scene,
    exists tex : Texture,
      texture (milky (makeMilkyTexture s)) = Some tex
      /\ length (tex_blobs tex) = CLOUD_NODES
      /\ Forall blobOk (tex_blobs tex)
      /\ 1 <= tex_width tex /\ 1 <= tex_height tex
      /\ (0 <= W s -> tex_width tex <= Math_max 1 (2 * W s))
      /\ (0 <= H s -> tex_height tex <= Math_max 1 (2 * H s))
      /\ dirty (milky (makeMilkyTexture s)) = false
      /\ angle (milky (makeMilkyTexture s)) = angle (milky s)
      /\ width (milky (makeMilkyTexture s)) = width (milky s)
      /\ textureCalls (makeMilkyTexture s) = S (textureCalls s).
Proof.
  intro s.
  destruct (cloudNodes_blobs (W s) (H s) (milky s) CLOUD_NODES [] (cursor s))
    as [Hlen Hall]; [constructor|].
  assert (Hcap : forall v, 0 <= v ->
             Math_max 1 (Math_floor (v * DPR)) <= Math_max 1 (2 * v)).
  { intros v Hv. unfold Math_max. apply Rle_max_compat_l.
    destruct (Math_floor_bounds (v * DPR)) as [Hf _].
    assert (Hd : DPR <= 2) by (unfold DPR, Math_min; apply Rmin_r). nra. }
  unfold makeMilkyTexture, run.
  destruct (cloudNodes _ _ _ _ _ _) as [blobs j]. cbn [fst] in Hlen, Hall.
  eexists. cbn. split; [reflexivity|]. cbn.
  split; [exact Hlen|]. split; [exact Hall|].
  split; [apply Rmax_l|]. split; [apply Rmax_l|].
  split; [apply Hcap|]. split; [apply Hcap|].
  repeat split.
Qed.

(** ** Seeding, resize and click *)

Lemma makeBandStars_length (w h : R) (k : Milky) (count i : nat) :
  (length (fst (makeBandStars w h k count i)) <= count)%nat.
Proof.
  destruct (bandLoop_terminates w h k count (count * 30) [] O i)
    as (arr & tries & j & Hrun & _ & Hl & _); try (cbn [length]; lia).
  unfold makeBandStars, bind, makeBandStars_fuel.
  now rewrite (Hrun (S (count * 30))) by lia.
Qed.

(** [seedScene] as one expression. *)
Lemma seedScene_parts (s : Scene) :
  let sr := makeStars (W s) (H s) STAR_COUNT 0.2 1.0 (cursor s) in
  let br := makeBandStars (W s) (H s) (milky s) BAND_COUNT (snd sr) in
  seedScene s
  = makeMilkyTexture
      (set_bandStars (fst br)
         (set_cursor (snd br) (set_stars (fst sr) (set_cursor (snd sr) s)))).
Proof.
  cbv zeta. unfold seedScene, run.
  destruct (makeStars _ _ _ _ _ _) as [st j1]. cbn.
  destruct (makeBandStars _ _ _ _ _) as [bs j2]. reflexivity.
Qed.

Lemma seedScene_stars (s : Scene) :
  stars (seedScene s)
  = fst (makeStars (W s) (H s) STAR_COUNT 0.2 1.0 (cursor s))
  /\ bandStars (seedScene s)
     = fst (makeBandStars (W s) (H s) (milky s) BAND_COUNT
              (snd (makeStars (W s) (H s) STAR_COUNT 0.2 1.0 (cursor s)))).
Proof.
  pose proof (seedScene_parts s) as E. cbv zeta in E. rewrite E.
  destruct (makeMilkyTexture_stars
    (set_bandStars
       (fst (makeBandStars (W s) (H s) (milky s) BAND_COUNT
               (snd (makeStars (W s) (H s) STAR_COUNT 0.2 1.0 (cursor s)))))
       (set_cursor
          (snd (makeBandStars (W s) (H s) (milky s) BAND_COUNT
                  (snd (makeStars (W s) (H s) STAR_COUNT 0.2 1.0
                          (cursor s)))))
          (set_stars
             (fst (makeStars (W s) (H s) STAR_COUNT 0.2 1.0 (cursor s)))
             (set_cursor
                (snd (makeStars (W s) (H s) STAR_COUNT 0.2 1.0 (cursor s)))
                s))))) as [-> ->].
  split; reflexivity.
Qed.

Lemma seedScene_band (s : Scene) :
  angle (milky (seedScene s)) = angle (milky s)
  /\ width (milky (seedScene s)) = width (milky s)
  /\ stale (milky (seedScene s)) = false
  /\ texture (milky (seedScene s)) <> None
  /\ textureCalls (seedScene s) = S (textureCalls s).
Proof.
  pose proof (seedScene_parts s) as E. cbv zeta in E. rewrite E.
  match goal with
  | |- context [makeMilkyTexture ?s4] =>
      destruct (makeMilkyTexture_band s4) as (-> & -> & Hd & Ht);
      rewrite (makeMilkyTexture_fresh s4), (makeMilkyTexture_textureCalls s4)
  end.
  repeat split. exact Ht.
Qed.

Lemma seedScene_others (s : Scene) :
  parallax (seedScene s) = parallax s
  /\ spawnCalls (seedScene s) = spawnCalls s
  /\ chkTwinkle (seedScene s) = chkTwinkle s
  /\ chkMilky (seedScene s) = chkMilky s.
Proof. repeat split; revert s; keep_field. Qed.

Lemma seeded_after_seedScene (s : Scene) :
  width (milky s) = Math_max 120 (Math_min (W s) (H s) * 0.45) ->
  seeded (seedScene s).
Proof.
  intro Hw. unfold seeded.
  destruct (seedScene_meteor_inputs s) as (-> & -> & _).
  destruct (seedScene_band s) as (_ & -> & _ & Ht & ->).
  destruct (seedScene_stars s) as [-> ->].
  split; [exact Hw|]. split; [exact Ht|].
  split.
  { unfold makeStars. rewrite makeStars_from_length. reflexivity. }
  split; [apply makeBandStars_length | lia].
Qed.

(** X9.  A resize takes the new viewport size, sets the band width to
    [max(120, 0.45 * min(W, H))] and re-seeds at once: 420 general stars
    inside the new viewport, at most 420 band stars within 50 pixels of
    it, and a texture rebuilt in the handler itself, so that the scene
    is not stale when the next frame comes.  The meteor, the parallax
    and the band angle are left alone. *)
Theorem resize_reseeds_scene :
  forall (vw vh : R) (s : Scene),
    0 <= vw -> 0 <= vh ->
    let s' := onResize vw vh s in
    W s' = vw /\ H s' = vh
    /\ width (milky s') = Math_max 120 (Math_min vw vh * 0.45)
    /\ 120 <= width (milky s')
    /\ angle (milky s') = angle (milky s)
    /\ stale (milky s') = false
    /\ textureCalls s' = S (textureCalls s)
    /\ length (stars s') = STAR_COUNT
    /\ (length (bandStars s') <= BAND_COUNT)%nat
    /\ (forall st, In st (stars s') ->
          0 <= s_x st <= vw /\ 0 <= s_y st <= vh)
    /\ (forall st, In st (bandStars s') ->
          -50 <= s_x st <= vw + 50 /\ -50 <= s_y st <= vh + 50)
    /\ meteor s' = meteor s /\ parallax s' = parallax s.
Proof.
  intros vw vh s Hvw Hvh. cbv zeta. unfold onResize.
  set (s1 := resize vw vh s).
  assert (HW : W s1 = vw) by reflexivity.
  assert (HH : H s1 = vh) by reflexivity.
  assert (Hwd : width (milky s1) = Math_max 120 (Math_min vw vh * 0.45))
    by reflexivity.
  assert (Hang : angle (milky s1) = angle (milky s)) by reflexivity.
  assert (Hcalls : textureCalls s1 = textureCalls s) by reflexivity.
  assert (Hmet : meteor s1 = meteor s) by reflexivity.
  assert (Hpar : parallax s1 = parallax s) by reflexivity.
  clearbody s1.
  destruct (seedScene_meteor_inputs s1) as (-> & -> & _).
  destruct (seedScene_band s1) as (-> & -> & -> & _ & ->).
  destruct (seedScene_stars s1) as [-> ->].
  destruct (seedScene_others s1) as (-> & _).
  rewrite seedScene_meteor, HW, HH, Hwd, Hang, Hcalls, Hmet, Hpar.
  split; [reflexivity|]. split; [reflexivity|]. split; [reflexivity|].
  split; [apply Rmax_l|]. split; [reflexivity|]. split; [reflexivity|].
  split; [reflexivity|].
  split.
  { unfold makeStars. rewrite makeStars_from_length. reflexivity. }
  split; [apply makeBandStars_length|].
  split.
  { intros st Hin. unfold makeStars in Hin.
    apply makeStars_from_In in Hin as [[] | [j ->]].
    destruct (makeStar_fields vw vh 0.2 1.0 j Hvw Hvh) as (Hx & Hy & _).
    now split. }
  split; [|now split].
  intros st Hin. apply makeBandStars_In in Hin as (a & a' & Hatt).
  destruct (bandAttempt_fields vw vh _ a a' st Hatt) as (Hx & Hy & _).
  now split.
Qed.

Lemma drawMilky_seed (s : Scene) :
  width (milky (fst (drawMilky s))) = width (milky s)
  /\ angle (milky (fst (drawMilky s))) = angle (milky s)
  /\ (texture (milky s) <> None ->
      texture (milky (fst (drawMilky s))) <> None)
  /\ stars (fst (drawMilky s)) = stars s
  /\ bandStars (fst (drawMilky s)) = bandStars s
  /\ (textureCalls s <= textureCalls (fst (drawMilky s)))%nat
  /\ chkMilky (fst (drawMilky s)) = chkMilky s.
Proof.
  destruct (drawMilky_cases s) as [-> | ->].
  - repeat split; auto.
  - destruct (makeMilkyTexture_band s) as (-> & -> & _ & Ht).
    destruct (makeMilkyTexture_stars s) as [-> ->].
    rewrite makeMilkyTexture_textureCalls, makeMilkyTexture_chkMilky.
    repeat split; auto.
Qed.

Lemma spawnPhase_stars (now : R) (s : Scene) :
  stars (spawnPhase now s) = stars s
  /\ bandStars (spawnPhase now s) = bandStars s.
Proof. split; revert s; keep_field. Qed.

Lemma handleMeteors_stars (now dt : R) (s : Scene) :
  stars (fst (handleMeteors now dt s)) = stars s
  /\ bandStars (fst (handleMeteors now dt s)) = bandStars s.
Proof.
  destruct (spawnPhase_stars now s) as [E1 E2].
  rewrite handleMeteors_state. cbv zeta.
  destruct (meteor (spawnPhase now s)); cbn; now split.
Qed.

Lemma frame_seeded (fi : FrameIn) (s : Scene) :
  seeded s -> seeded (fst (frame fi s)).
Proof.
  intros (Hw & Ht & Hs & Hb & Hc). unfold seeded.
  destruct (frame_size fi s) as [-> ->].
  rewrite frame_state.
  set (s2 := set_parallax _ _).
  rewrite handleMeteors_milky, handleMeteors_textureCalls.
  destruct (handleMeteors_stars (f_clockMeteors fi) (f_now fi - last s)
              (fst (drawMilky s2))) as [-> ->].
  destruct (drawMilky_seed s2) as (-> & _ & Htex & -> & -> & Hcalls & _).
  change (width (milky s2)) with (width (milky s)).
  change (stars s2) with (stars s). change (bandStars s2) with (bandStars s).
  change (textureCalls s2) with (textureCalls s) in Hcalls.
  split; [exact Hw|]. split; [now apply Htex|].
  split; [exact Hs|]. split; [exact Hb | lia].
Qed.

Lemma onClick_parts (s : Scene) :
  let k' := {| angle := angle (milky s)
                        + degToRad (fst (rand (-8) 8 (cursor s)));
               width := width (milky s);
               texture := texture (milky s); dirty := true |} in
  let br := makeBandStars (W s) (H s) k' BAND_COUNT (S (cursor s)) in
  onClick s
  = set_bandStars (fst br)
      (set_cursor (snd br) (set_milky k' (set_cursor (S (cursor s)) s))).
Proof.
  cbv zeta. unfold onClick, run. rewrite !rand_value. cbn.
  destruct (makeBandStars _ _ _ _ _) as [bs j]. reflexivity.
Qed.

Lemma onClick_seeded (s : Scene) : seeded s -> seeded (onClick s).
Proof.
  intros (Hw & Ht & Hs & Hb & Hc).
  pose proof (onClick_parts s) as E. cbv zeta in E. rewrite E.
  unfold seeded. cbn.
  split; [exact Hw|]. split; [exact Ht|]. split; [exact Hs|].
  split; [apply makeBandStars_length | exact Hc].
Qed.

Lemma step_seeded (ev : Event) (s : Scene) : seeded s -> seeded (step ev s).
Proof.
  intro Hs. destruct ev as [vw vh | e | | b | b | b | fi].
  - rewrite step_resize. unfold onResize.
    apply seeded_after_seedScene. reflexivity.
  - exact Hs.
  - rewrite step_click. now apply onClick_seeded.
  - exact Hs.
  - destruct b; exact Hs.
  - exact Hs.
  - rewrite step_frame. now apply frame_seeded.
Qed.

Lemma boot_seeded (b : BootEnv) : seeded (boot b).
Proof. unfold boot. apply seeded_after_seedScene. reflexivity. Qed.

(** X10.  In every scene reachable from boot the band width is
    [max(120, 0.45 * min(W, H))], hence at least 120 pixels; a band
    texture exists (it has been built at least once); there are exactly
    420 general stars and at most 420 band stars. *)
Theorem scene_stays_seeded :
  forall s : Scene, reachable s ->
    width (milky s) = Math_max 120 (Math_min (W s) (H s) * 0.45)
    /\ 120 <= width (milky s)
    /\ texture (milky s) <> None
    /\ (1 <= textureCalls s)%nat
    /\ length (stars s) = STAR_COUNT
    /\ (length (bandStars s) <= BAND_COUNT)%nat.
Proof.
  intros s Hr.
  assert (Hseed : seeded s).
  { induction Hr as [b | s ev Hr IH];
      [apply boot_seeded | now apply step_seeded]. }
  destruct Hseed as (Hw & Ht & Hs & Hb & Hc).
  repeat split; try assumption.
  rewrite Hw. apply Rmax_l.
Qed.

Lemma initialGlobals_fields (b : BootEnv) :
  meteor (initialGlobals b) = None
  /\ parallax (initialGlobals b)
     = {| px := 0; py := 0; targetX := 0; targetY := 0 |}
  /\ nextMeteorAt (initialGlobals b)
     = clock0 b + fst (rand METEOR_MIN_GAP METEOR_MAX_GAP O)
  /\ angle (milky (initialGlobals b))
     = degToRad (fst (rand 18 42 1%nat)
                 * (if Rltb (draw rs 2%nat) 0.5 then 1 else -1))
  /\ spawnCalls (initialGlobals b) = O
  /\ textureCalls (initialGlobals b) = O
  /\ last (initialGlobals b) = clock1 b
  /\ chkMilky (initialGlobals b) = milkyChecked b
  /\ chkTwinkle (initialGlobals b) = twinkleChecked b.
Proof. repeat split. Qed.

Lemma boot_cache (b : BootEnv) :
  stale (milky (boot b)) = false
  /\ textureCalls (boot b) = 1%nat
  /\ chkMilky (boot b) = milkyChecked b.
Proof.
  unfold boot.
  set (s1 := resize (innerWidth b) (innerHeight b) (initialGlobals b)).
  assert (Htc1 : textureCalls s1 = O) by reflexivity.
  assert (Hck1 : chkMilky s1 = milkyChecked b) by reflexivity.
  clearbody s1.
  destruct (seedScene_others s1) as (_ & _ & _ & ->).
  destruct (seedScene_band s1) as (_ & _ & -> & _ & ->).
  rewrite Htc1, Hck1. now repeat split.
Qed.

(** X11.  After boot there is no meteor, the first spawn is due 3800 to
    9500 ms after the script's first clock reading (both ends
    included), the parallax is at rest, the band is tilted by 18 to 42
    degrees to either side, the texture has been built exactly once and
    is not stale, and the viewport is the window's. *)
Theorem boot_state :
  forall b : BootEnv,
    meteor (boot b) = None
    /\ clock0 b + 3800 <= nextMeteorAt (boot b) <= clock0 b + 9500
    /\ parallax (boot b) = {| px := 0; py := 0; targetX := 0; targetY := 0 |}
    /\ (degToRad 18 <= angle (milky (boot b)) <= degToRad 42
        \/ degToRad 18 <= - angle (milky (boot b)) <= degToRad 42)
    /\ textureCalls (boot b) = 1%nat /\ spawnCalls (boot b) = O
    /\ stale (milky (boot b)) = false
    /\ W (boot b) = innerWidth b /\ H (boot b) = innerHeight b
    /\ last (boot b) = clock1 b.
Proof.
  intro b.
  destruct (boot_globals b) as (HW & HH & _ & Hnext & Hlast).
  destruct (initialGlobals_fields b)
    as (_ & Hpar & _ & Hang & Hsp & Htc & _).
  split; [apply boot_meteor|].
  split.
  { rewrite Hnext. pose proof (draw_range rs O) as [H0 H1].
    unfold METEOR_MAX_GAP, METEOR_MIN_GAP. split; nra. }
  rewrite HW, HH, Hlast. clear HW HH Hlast Hnext.
  unfold boot.
  set (s1 := resize (innerWidth b) (innerHeight b) (initialGlobals b)).
  assert (Hpar1 : parallax s1 = parallax (initialGlobals b)) by reflexivity.
  assert (Hang1 : angle (milky s1) = angle (milky (initialGlobals b)))
    by reflexivity.
  assert (Hsp1 : spawnCalls s1 = spawnCalls (initialGlobals b))
    by reflexivity.
  assert (Htc1 : textureCalls s1 = textureCalls (initialGlobals b))
    by reflexivity.
  clearbody s1.
  destruct (seedScene_others s1) as (-> & -> & _).
  destruct (seedScene_band s1) as (-> & _ & -> & _ & ->).
  rewrite Hpar1, Hang1, Hsp1, Htc1, Hpar, Hang, Hsp, Htc.
  split; [reflexivity|].
  split.
  { assert (Hdeg : 18 <= fst (rand 18 42 1%nat) <= 42)
      by (apply rand_range; lra).
    pose proof PI_RGT_0 as Hpi. unfold degToRad.
    destruct (Rltb (draw rs 2%nat) 0.5); [left | right]; split; nra. }
  split; [reflexivity|]. split; [reflexivity|]. split; [reflexivity|].
  split; [reflexivity|]. split; reflexivity.
Qed.

Lemma frame_band_on (fi : FrameIn) (s : Scene) :
  chkMilky s = true ->
  stale (milky (fst (frame fi s))) = false
  /\ chkMilky (fst (frame fi s)) = true.
Proof.
  intro Hon. rewrite frame_state.
  rewrite handleMeteors_milky, handleMeteors_chkMilky.
  set (s2 := set_parallax _ _).
  assert (Hon2 : chkMilky s2 = true) by exact Hon. clearbody s2.
  split.
  - unfold drawMilky. rewrite Hon2.
    destruct (dirty (milky s2) || _) eqn:Hst.
    + destruct (makeMilkyTexture_band s2) as (_ & _ & _ & Ht).
      destruct (texture (milky (makeMilkyTexture s2))) eqn:E;
        [|now elim Ht].
      cbn [fst]. apply makeMilkyTexture_fresh.
    + apply orb_false_iff in Hst as [Hd Htex].
      destruct (texture (milky s2)) eqn:E; [|discriminate].
      cbn [fst]. unfold stale. now rewrite Hd, E.
  - destruct (drawMilky_seed s2) as (_ & _ & _ & _ & _ & _ & ->).
    exact Hon2.
Qed.

Lemma step_toggleMilky (b : bool) (s : Scene) :
  milky (step (EvToggleMilky b) s) = milky s
  /\ textureCalls (step (EvToggleMilky b) s) = textureCalls s
  /\ chkMilky (step (EvToggleMilky b) s) = b.
Proof. now repeat split. Qed.

(** C8.  Unchecking the band toggle changes neither the band record
    (angle, width, cached texture, dirty flag) nor the number of texture
    builds.  While it stays unchecked, through any frames, pointer
    moves and other toggles, no frame draws the texture or rebuilds it.
    After checking it again the next frame rebuilds the texture exactly
    when the cache was already stale before the toggle was unchecked.
    The two geometry changes: a click (angle nudge) while it is off
    marks the cache stale without rebuilding, so the first frame after
    checking again rebuilds once; a resize while it is off rebuilds in
    the handler, and the frame after checking again does not rebuild a
    second time. *)
Theorem band_toggle_keeps_texture_cache :
  forall (s0 : Scene) (evs : list Event) (fi : FrameIn),
    Forall bandOffEvent evs ->
    let off := steps evs (step (EvToggleMilky false) s0) in
    let on := step (EvToggleMilky true) off in
    milky (step (EvToggleMilky false) s0) = milky s0
    /\ textureCalls (step (EvToggleMilky false) s0) = textureCalls s0
    /\ milky off = milky s0
    /\ textureCalls off = textureCalls s0
    /\ existsb isDrawImage (snd (frame fi off)) = false
    /\ milky on = milky s0
    /\ textureCalls on = textureCalls s0
    /\ textureCalls (fst (frame fi on)) =
       (if stale (milky s0) then S (textureCalls s0) else textureCalls s0)
    /\ textureCalls (step EvClick off) = textureCalls s0
    /\ textureCalls
         (fst (frame fi (step (EvToggleMilky true) (step EvClick off))))
       = S (textureCalls s0)
    /\ (forall vw vh : R,
          textureCalls (step (EvResize vw vh) off) = S (textureCalls s0)
          /\ textureCalls
               (fst (frame fi (step (EvToggleMilky true)
                                 (step (EvResize vw vh) off))))
             = S (textureCalls s0)).
Proof.
  intros s0 evs fi Hall off on.
  assert (Hoff0 : chkMilky (step (EvToggleMilky false) s0) = false)
    by reflexivity.
  destruct (steps_band_off evs _ Hall Hoff0) as (Hm & Hc & Hk).
  fold off in Hm, Hc, Hk. cbn [step onToggleMilky] in Hm, Hc.
  cbn [milky textureCalls set_chkMilky] in Hm, Hc.
  split; [reflexivity|]. split; [reflexivity|].
  split; [exact Hm|]. split; [exact Hc|].
  split; [now destruct (frame_band_off fi off Hk)|].
  split; [exact Hm|]. split; [exact Hc|].
  split.
  { subst on. rewrite frame_textureCalls. cbn. now rewrite Hm, Hc. }
  clearbody off. clear on.
  assert (Hclick : textureCalls (step EvClick off) = textureCalls off
                   /\ dirty (milky (step EvClick off)) = true).
  { rewrite step_click.
    pose proof (onClick_parts off) as E. cbv zeta in E. rewrite E.
    now split. }
  destruct Hclick as (Hcc & Hcd).
  split; [now rewrite Hcc|].
  split.
  { rewrite frame_textureCalls.
    destruct (step_toggleMilky true (step EvClick off)) as (-> & -> & ->).
    unfold stale. rewrite Hcd, Hcc, Hc. reflexivity. }
  intros vw vh.
  assert (Hres : textureCalls (step (EvResize vw vh) off)
                 = S (textureCalls off)
                 /\ stale (milky (step (EvResize vw vh) off)) = false).
  { rewrite step_resize. unfold onResize.
    destruct (seedScene_band (resize vw vh off)) as (_ & _ & -> & _ & ->).
    now split. }
  destruct Hres as (Hrc & Hrs).
  split; [now rewrite Hrc, Hc|].
  rewrite frame_textureCalls.
  destruct (step_toggleMilky true (step (EvResize vw vh) off))
    as (-> & -> & _).
  rewrite Hrs, andb_false_r, Hrc, Hc. reflexivity.
Qed.


(** ** Meteors: spawn, motion and trail *)

Lemma spawnMeteorGen_value (w h a : R) (i : nat) :
  let fromLeft := Rltb (draw rs i) 0.5 in
  let theta := a + (if fromLeft then 0 else PI)
               + degToRad (draw rs (i + 3) * (8 - -8) + -8) in
  let speed := (draw rs (i + 4) * (1150 - 650) + 650) / 1000
               * Math_max w h in
  spawnMeteorGen w h a i
  = ({| m_x := if fromLeft
               then draw rs (i + 1) * (w * 0.1 - - w * 0.2) + - w * 0.2
               else draw rs (i + 1) * (w * 1.2 - w * 0.9) + w * 0.9;
        m_y := draw rs (i + 2) * (h * 0.35 - - h * 0.1) + - h * 0.1;
        vx := Math_cos theta * speed; vy := Math_sin theta * speed;
        life := draw rs (i + 5) * (1100 - 500) + 500;
        age := 0; trail := [] |}, (i + 6)%nat).
Proof.
  cbv zeta. unfold spawnMeteorGen, bind, Math_random.
  replace (i + 1)%nat with (S i) by lia.
  replace (i + 2)%nat with (S (S i)) by lia.
  replace (i + 3)%nat with (S (S (S i))) by lia.
  replace (i + 4)%nat with (S (S (S (S i)))) by lia.
  replace (i + 5)%nat with (S (S (S (S (S i))))) by lia.
  replace (i + 6)%nat with (S (S (S (S (S (S i)))))) by lia.
  destruct (Rltb (draw rs i) 0.5);
    repeat (rewrite rand_value; cbv beta iota zeta); reflexivity.
Qed.

(** X13.  A spawned meteor has age 0, an empty trail and a lifespan
    from 500 to 1100 ms.  It starts at a height between 10 percent of
    [H] above the top edge and 35 percent of [H] below it, either from
    the left (x between -0.2 W and 0.1 W, heading within 8 degrees of
    the band angle) or from the right (x between 0.9 W and 1.2 W,
    heading within 8 degrees of the opposite direction), at a speed
    between 0.65 and 1.15 times the larger viewport side per second.
    Spawning uses exactly six draws. *)
Theorem spawned_meteor_fields :
  forall (w h a : R) (i : nat),
    0 <= w -> 0 <= h ->
    let m := fst (spawnMeteorGen w h a i) in
    snd (spawnMeteorGen w h a i) = (i + 6)%nat
    /\ age m = 0 /\ trail m = []
    /\ 500 <= life m <= 1100
    /\ - 0.1 * h <= m_y m <= 0.35 * h
    /\ exists theta speed,
         vx m = Math_cos theta * speed /\ vy m = Math_sin theta * speed
         /\ 0.65 * Math_max w h <= speed <= 1.15 * Math_max w h
         /\ ((- 0.2 * w <= m_x m <= 0.1 * w
              /\ - degToRad 8 <= theta - a <= degToRad 8)
             \/ (0.9 * w <= m_x m <= 1.2 * w
                 /\ - degToRad 8 <= theta - (a + PI) <= degToRad 8)).
Proof.
  intros w h a i Hw Hh.
  pose proof (spawnMeteorGen_value w h a i) as E. cbv zeta in E.
  cbv zeta. rewrite E. cbn [fst snd age trail life m_x m_y vx vy].
  pose proof (draw_range rs (i + 1)) as [? ?].
  pose proof (draw_range rs (i + 2)) as [? ?].
  pose proof (draw_range rs (i + 3)) as [? ?].
  pose proof (draw_range rs (i + 4)) as [? ?].
  pose proof (draw_range rs (i + 5)) as [? ?].
  split; [reflexivity|]. split; [reflexivity|]. split; [reflexivity|].
  split; [lra|]. split; [nra|].
  eexists. eexists. split; [reflexivity|]. split; [reflexivity|].
  assert (HM : 0 <= Math_max w h).
  { unfold Math_max. pose proof (Rmax_l w h). lra. }
  split; [nra|].
  pose proof PI_RGT_0 as Hpi. unfold degToRad.
  destruct (Rltb (draw rs i) 0.5); [left | right]; split; nra.
Qed.

(** X14.  On a viewport of at most 1000 x 2000 pixels a spawned meteor
    starts inside the 200 pixel off-screen margin.  On a wider one it
    can start outside: coming from the left with the smallest start
    draw it is placed at [-0.2 W], left of [-200]. *)
Theorem spawn_position_and_margin :
  forall (w h a : R) (i : nat),
    (0 <= w <= 1000 -> 0 <= h <= 2000 ->
     Active w h (fst (spawnMeteorGen w h a i)))
    /\ (1000 < w -> draw rs i < 0.5 -> draw rs (i + 1) = 0 ->
        m_x (fst (spawnMeteorGen w h a i)) = - 0.2 * w
        /\ offscreen w h (fst (spawnMeteorGen w h a i)) = true).
Proof.
  intros w h a i.
  pose proof (spawnMeteorGen_value w h a i) as E. cbv zeta in E.
  rewrite E. cbn [fst]. split.
  - intros Hw Hh. unfold Active. cbn [age life m_x m_y].
    pose proof (draw_range rs (i + 1)) as [? ?].
    pose proof (draw_range rs (i + 2)) as [? ?].
    pose proof (draw_range rs (i + 5)) as [? ?].
    assert (Hxw : 0 <= draw rs (i + 1) * w <= w) by nra.
    assert (Hyh : 0 <= draw rs (i + 2) * h <= h) by nra.
    split; [lra|].
    split; [destruct (Rltb (draw rs i) 0.5); lra | lra].
  - intros Hw Hleft Hzero.
    assert (Hl : Rltb (draw rs i) 0.5 = true) by now apply Rltb_true.
    assert (Hx : (if Rltb (draw rs i) 0.5
                  then draw rs (i + 1) * (w * 0.1 - - w * 0.2) + - w * 0.2
                  else draw rs (i + 1) * (w * 1.2 - w * 0.9) + w * 0.9)
                 = - 0.2 * w)
      by (rewrite Hl, Hzero; lra).
    unfold offscreen. cbn [m_x m_y]. rewrite Hx.
    split; [reflexivity|].
    assert (Hout : Rltb (- 0.2 * w) (-200) = true)
      by (apply Rltb_true; lra).
    now rewrite Hout.
Qed.

Lemma pushTrail_last (p : Sample) (tr : list Sample) :
  pushTrail p tr <> [] /\ List.last (pushTrail p tr) origin = p.
Proof.
  unfold pushTrail. cbv zeta.
  destruct (120 <? length (tr ++ [p]))%nat eqn:Hlen.
  - apply Nat.ltb_lt in Hlen. rewrite length_app in Hlen.
    cbn [length] in Hlen.
    destruct tr as [|q tr']; [cbn in Hlen; lia|].
    cbn [app tl]. split; [now destruct tr'|]. apply last_last.
  - split; [now destruct tr|]. apply last_last.
Qed.

Lemma advanceMeteor_headSampled (dt : R) (m : Meteor) :
  headSampled (advanceMeteor dt m).
Proof.
  unfold headSampled. rewrite advanceMeteor_trail.
  destruct (pushTrail_last
              {| p_x := m_x m + vx m * (dt / 1000);
                 p_y := m_y m + vy m * (dt / 1000);
                 p_t := age m + dt |} (trail m)) as [Hne Hlast].
  split; [exact Hne|]. rewrite Hlast. reflexivity.
Qed.

(** X15.  Advancing a meteor through the time steps [dts] adds their
    sum to its age and moves it by velocity times that sum (in
    seconds); velocity and lifespan never change, and after at least
    one step the newest trail sample is the meteor's position and
    age. *)
Theorem meteor_motion_accumulates :
  forall (dts : list R) (m : Meteor),
    let m' := fold_left (fun acc dt => advanceMeteor dt acc) dts m in
    age m' = age m + sumR dts
    /\ m_x m' = m_x m + vx m * (sumR dts / 1000)
    /\ m_y m' = m_y m + vy m * (sumR dts / 1000)
    /\ vx m' = vx m /\ vy m' = vy m /\ life m' = life m
    /\ (dts <> [] -> headSampled m').
Proof.
  induction dts as [|dt rest IH]; intro m; cbv zeta.
  - cbn [fold_left sumR].
    repeat (split; [lra || reflexivity|]). intro Hne. now elim Hne.
  - cbn [fold_left sumR].
    specialize (IH (advanceMeteor dt m)). cbv zeta in IH.
    destruct IH as (Ha & Hx & Hy & Hvx & Hvy & Hl & Hhead).
    rewrite Ha, Hx, Hy, Hvx, Hvy, Hl. cbn [age m_x m_y vx vy life advanceMeteor].
    repeat (split; [lra || reflexivity|]).
    intros _. destruct rest as [|dt2 rest'].
    + cbn [fold_left]. apply advanceMeteor_headSampled.
    + apply Hhead. discriminate.
Qed.

Lemma drawTrail_step (tr : list Sample) (n i : nat) :
  drawTrail tr (S n) i
  = (StrokeTrail (p_x (nth (S n) tr origin)) (p_y (nth (S n) tr origin))
       (p_x (nth n tr origin)) (p_y (nth n tr origin))
       (clamp (2.8 * (INR (S n) / INR (length tr))) 0.2 2.8)
       (HSLA (fst (randInt 205 230 i)) 100 85
          (0.06 + INR (S n) / INR (length tr) * 0.25))
     :: fst (drawTrail tr n (S i)),
     snd (drawTrail tr n (S i))).
Proof.
  cbn [drawTrail]. cbv zeta. unfold bind.
  assert (Hcur : snd (randInt 205 230 i) = S i) by reflexivity.
  destruct (randInt 205 230 i) as [hue i1]. cbn [fst snd] in *. subst i1.
  now destruct (drawTrail tr n (S i)).
Qed.

Lemma drawTrail_cmds (tr : list Sample) :
  forall (n i : nat),
    (n < length tr)%nat ->
    length (fst (drawTrail tr n i)) = n
    /\ snd (drawTrail tr n i) = (i + n)%nat
    /\ Forall trailStrokeOk (fst (drawTrail tr n i)).
Proof.
  induction n as [|n IH]; intros i Hn.
  - cbn. repeat split; [lia | constructor].
  - rewrite drawTrail_step. cbn [fst snd length].
    assert (Hz : (205 <= 230)%Z) by lia.
    pose proof (randInt_whole 205 230 i Hz) as Hhue.
    destruct (IH (S i)) as (Hlen & Hsnd & Hall); [lia|].
    split; [now rewrite Hlen|]. split; [lia|].
    constructor; [|exact Hall].
    unfold trailStrokeOk.
    assert (Hk : 0 < INR (S n) / INR (length tr) <= 1).
    { assert (Hlen0 : 0 < INR (length tr)) by (apply lt_0_INR; lia).
      assert (Hn0 : 0 < INR (S n)) by (apply lt_0_INR; lia).
      assert (Hle : INR (S n) <= INR (length tr)) by (apply le_INR; lia).
      split.
      - apply Rdiv_lt_0_compat; assumption.
      - apply Rmult_le_reg_r with (INR (length tr)); [exact Hlen0|].
        unfold Rdiv. rewrite Rmult_assoc, Rinv_l by lra. lra. }
    split; [apply clamp_range; lra|].
    split; [exact Hhue|]. split; [reflexivity|]. split; [reflexivity|].
    lra.
Qed.

Lemma handleMeteors_output :
  forall (now dt : R) (s : Scene),
    (meteor (spawnPhase now s) = None -> snd (handleMeteors now dt s) = [])
    /\ (forall m, meteor (spawnPhase now s) = Some m ->
          let m1 := advanceMeteor dt m in
          exists segs headAlpha,
            snd (handleMeteors now dt s)
            = segs ++ [FillHead (m_x m1) (m_y m1) headAlpha]
            /\ length segs = (length (trail m1) - 1)%nat
            /\ Forall trailStrokeOk segs
            /\ headAlpha = clamp (1 - age m1 / life m1) 0.15 0.9
            /\ 0.15 <= headAlpha <= 0.9
            /\ cursor (fst (handleMeteors now dt s))
               = (cursor (spawnPhase now s) + length segs)%nat).
Proof.
  intros now dt s. split.
  - intro Hnone. unfold handleMeteors. cbv zeta. now rewrite Hnone.
  - intros m Hm. cbv zeta.
    destruct (advanceMeteor_headSampled dt m) as [Hne _].
    assert (Hpos : (length (trail (advanceMeteor dt m)) - 1
                    < length (trail (advanceMeteor dt m)))%nat).
    { destruct (trail (advanceMeteor dt m)); [now elim Hne | cbn; lia]. }
    destruct (drawTrail_cmds (trail (advanceMeteor dt m)) _
                (cursor (spawnPhase now s)) Hpos) as (Hlen & Hsnd & Hall).
    unfold handleMeteors. cbv zeta. rewrite Hm. unfold run.
    destruct (drawTrail _ _ _) as [segs j]. cbn [fst snd] in Hlen, Hsnd, Hall.
    exists segs, (clamp (1 - age (advanceMeteor dt m)
                         / life (advanceMeteor dt m)) 0.15 0.9).
    split; [now destruct (cleanupDue _ _ _)|].
    split; [exact Hlen|]. split; [exact Hall|].
    split; [reflexivity|]. split; [apply clamp_range; lra|].
    rewrite Hlen, <- Hsnd. now destruct (cleanupDue _ _ _).
Qed.

(** X16.  A call of [handleMeteors] that has no meteor after its spawn
    test draws nothing.  One that has a meteor strokes one segment less
    than the advanced trail has samples, each with a line width in
    [[0.2, 2.8]], a whole hue from 205 to 231 and an opacity in
    [(0.06, 0.31]], using one draw per segment, and then fills the head
    at the meteor's position with an opacity in [[0.15, 0.9]]. *)
Theorem handleMeteors_drawing :
  forall (now dt : R) (s : Scene),
    (meteor (spawnPhase now s) = None -> snd (handleMeteors now dt s) = [])
    /\ (forall m, meteor (spawnPhase now s) = Some m ->
          let m1 := advanceMeteor dt m in
          exists segs headAlpha,
            snd (handleMeteors now dt s)
            = segs ++ [FillHead (m_x m1) (m_y m1) headAlpha]
            /\ length segs = (length (trail m1) - 1)%nat
            /\ Forall trailStrokeOk segs
            /\ headAlpha = clamp (1 - age m1 / life m1) 0.15 0.9
            /\ 0.15 <= headAlpha <= 0.9
            /\ cursor (fst (handleMeteors now dt s))
               = (cursor (spawnPhase now s) + length segs)%nat).
Proof. exact handleMeteors_output. Qed.

Lemma frame_meteor_source (fi : FrameIn) (s : Scene) (m' : Meteor) :
  meteor (fst (frame fi s)) = Some m' ->
  exists m, m' = advanceMeteor (f_now fi - last s) m
    /\ (meteor s = Some m
        \/ exists w h a j, m = fst (spawnMeteorGen w h a j)).
Proof.
  rewrite frame_state, handleMeteors_meteor, spawnPhase_meteor.
  rewrite drawMilky_spawnDue, drawMilky_meteor.
  destruct (spawnDue _ _).
  - destruct (cleanupDue _ _ _); [discriminate|].
    intros [= <-]. eexists. split; [reflexivity|]. right.
    do 4 eexists. reflexivity.
  - cbn [meteor set_parallax set_last].
    destruct (meteor s) as [m|]; [|discriminate].
    destruct (cleanupDue _ _ _); [discriminate|].
    intros [= <-]. exists m. split; [reflexivity | now left].
Qed.

Lemma step_meteorTracked (ev : Event) (s : Scene) :
  meteorTracked s -> meteorTracked (step ev s).
Proof.
  intros Hs m Hm.
  destruct (step_meteor ev s) as [E | [E | [fi ->]]].
  - rewrite E in Hm. now apply Hs.
  - rewrite E in Hm. discriminate.
  - rewrite step_frame in Hm.
    apply frame_meteor_source in Hm as (m0 & -> & Hfrom).
    split; [|apply advanceMeteor_headSampled].
    change (life (advanceMeteor (f_now fi - last s) m0)) with (life m0).
    destruct Hfrom as [H0 | (w & h & a & j & ->)].
    + now apply Hs.
    + apply spawnMeteorGen_fresh.
Qed.

(** X17.  The meteor of any reachable scene has a lifespan from 500
    to 1100 ms, an age that has not passed it, a trail of 1 to 120
    samples, and its own position and age as the newest trail
    sample. *)
Theorem stored_meteor_is_tracked :
  forall (s : Scene) (m : Meteor),
    reachable s -> meteor s = Some m ->
    500 <= life m <= 1100
    /\ age m <= life m
    /\ (1 <= length (trail m) <= 120)%nat
    /\ List.last (trail m) origin
       = {| p_x := m_x m; p_y := m_y m; p_t := age m |}.
Proof.
  intros s m Hr Hm.
  assert (Htr : meteorTracked s).
  { clear m Hm. induction Hr as [b | s ev Hr IH].
    - intros m Hm. rewrite boot_meteor in Hm. discriminate.
    - now apply step_meteorTracked. }
  destruct (Htr m Hm) as (Hlife & Hne & Hlast).
  destruct (reachable_meteorOk s Hr m Hm) as [Hage Hlen].
  split; [exact Hlife|]. split; [exact Hage|].
  split; [|exact Hlast].
  destruct (trail m); [now elim Hne | cbn in *; lia].
Qed.

(** ** Meteors: the toggle and the spawn schedule *)

Lemma onClick_meteor_inputs (s : Scene) :
  chkMeteors (onClick s) = chkMeteors s
  /\ nextMeteorAt (onClick s) = nextMeteorAt s
  /\ spawnCalls (onClick s) = spawnCalls s.
Proof.
  pose proof (onClick_parts s) as E. cbv zeta in E. rewrite E.
  repeat split.
Qed.

(** What an event other than a frame does to the spawn schedule. *)
Lemma step_schedule (ev : Event) (s : Scene) :
  (forall fi, ev <> EvFrame fi) ->
  nextMeteorAt (step ev s) = nextMeteorAt s
  /\ spawnCalls (step ev s) = spawnCalls s
  /\ ((forall b, ev <> EvToggleMeteors b) ->
      chkMeteors (step ev s) = chkMeteors s).
Proof.
  intro Hnf. destruct ev as [vw vh | e | | b | b | b | fi].
  - rewrite step_resize. unfold onResize.
    destruct (seedScene_meteor_inputs (resize vw vh s))
      as (_ & _ & -> & -> & _).
    destruct (seedScene_others (resize vw vh s)) as (_ & -> & _).
    repeat split.
  - repeat split.
  - rewrite step_click.
    destruct (onClick_meteor_inputs s) as (-> & -> & ->). repeat split.
  - repeat split.
  - split; [now destruct b|]. split; [now destruct b|].
    intro Hne. now elim (Hne b).
  - repeat split.
  - now elim (Hnf fi).
Qed.

Lemma frame_schedule (fi : FrameIn) (s : Scene) :
  chkMeteors (fst (frame fi s)) = chkMeteors s
  /\ (spawnDue (f_clockMeteors fi) s = false ->
      nextMeteorAt (fst (frame fi s)) = nextMeteorAt s
      /\ spawnCalls (fst (frame fi s)) = spawnCalls s)
  /\ (spawnDue (f_clockMeteors fi) s = true ->
      f_clockMeteors fi + 3800 <= nextMeteorAt (fst (frame fi s))
      /\ nextMeteorAt (fst (frame fi s)) <= f_clockMeteors fi + 9500
      /\ spawnCalls (fst (frame fi s)) = S (spawnCalls s)).
Proof.
  rewrite frame_spawnCalls.
  rewrite frame_state, handleMeteors_chkMeteors, handleMeteors_nextMeteorAt,
    spawnPhase_nextMeteorAt, drawMilky_spawnDue.
  set (s2 := set_parallax _ _).
  change (spawnDue (f_clockMeteors fi) s2)
    with (spawnDue (f_clockMeteors fi) s).
  split.
  { destruct (drawMilky_cases s2) as [-> | ->]; [reflexivity|].
    destruct (makeMilkyTexture_spawn_inputs s2) as (-> & _). reflexivity. }
  split.
  - intros ->. rewrite drawMilky_nextMeteorAt. now split.
  - intros ->.
    match goal with
    | |- context [rand METEOR_MIN_GAP METEOR_MAX_GAP ?j] =>
        assert (Hg : METEOR_MIN_GAP
                     <= fst (rand METEOR_MIN_GAP METEOR_MAX_GAP j)
                     <= METEOR_MAX_GAP)
          by (apply rand_range;
              unfold METEOR_MIN_GAP, METEOR_MAX_GAP; lra)
    end.
    unfold METEOR_MIN_GAP, METEOR_MAX_GAP in *.
    split; [lra|]. split; [lra | reflexivity].
Qed.

(** C5 (amended).  The next-spawn timestamp is assigned in one place
    only, the spawn branch of [handleMeteors]: a call that spawns sets
    it to the clock reading plus a gap from 3800 to 9500 ms.  A call
    that does not spawn leaves it as it was, also when the meteor
    expires or is culled in that call.  A frame changes it exactly as
    its [handleMeteors] call does, and no other handler (resize,
    pointer, click, the three toggles, among them unchecking the
    meteors toggle) changes it or spawns. *)
Theorem next_spawn_set_on_spawn_only :
  (forall (now dt : R) (s : Scene),
      (spawnDue now s = true ->
       spawnCalls (fst (handleMeteors now dt s)) = S (spawnCalls s)
       /\ exists g, 3800 <= g <= 9500
            /\ nextMeteorAt (fst (handleMeteors now dt s)) = now + g)
      /\ (spawnDue now s = false ->
          spawnCalls (fst (handleMeteors now dt s)) = spawnCalls s
          /\ nextMeteorAt (fst (handleMeteors now dt s)) = nextMeteorAt s))
  /\ (forall (fi : FrameIn) (s : Scene),
        (spawnDue (f_clockMeteors fi) s = true ->
         spawnCalls (step (EvFrame fi) s) = S (spawnCalls s)
         /\ exists g, 3800 <= g <= 9500
              /\ nextMeteorAt (step (EvFrame fi) s) = f_clockMeteors fi + g)
        /\ (spawnDue (f_clockMeteors fi) s = false ->
            spawnCalls (step (EvFrame fi) s) = spawnCalls s
            /\ nextMeteorAt (step (EvFrame fi) s) = nextMeteorAt s))
  /\ (forall (ev : Event) (s : Scene),
        (forall fi, ev <> EvFrame fi) ->
        spawnCalls (step ev s) = spawnCalls s
        /\ nextMeteorAt (step ev s) = nextMeteorAt s).
Proof.
  split; [|split].
  - intros now dt s.
    rewrite handleMeteors_spawnCalls, handleMeteors_nextMeteorAt,
      spawnPhase_nextMeteorAt.
    split.
    + intros ->. split; [reflexivity|].
      eexists. split; [|reflexivity].
      apply rand_range. unfold METEOR_MIN_GAP, METEOR_MAX_GAP. lra.
    + intros ->. now split.
  - intros fi s. rewrite step_frame.
    destruct (frame_schedule fi s) as (_ & Hno & Hyes).
    split.
    + intro Hdue. destruct (Hyes Hdue) as (Hlo & Hhi & Hcalls).
      split; [exact Hcalls|].
      exists (nextMeteorAt (fst (frame fi s)) - f_clockMeteors fi).
      split; [lra | ring].
    + intro Hdue. destruct (Hno Hdue) as (Hn & Hc). now split.
  - intros ev s Hnf.
    destruct (step_schedule ev s Hnf) as (Hn & Hc & _). now split.
Qed.

Lemma spawnDue_unchecked (now : R) (s : Scene) :
  chkMeteors s = false -> spawnDue now s = false.
Proof. intro Hoff. unfold spawnDue. now rewrite Hoff. Qed.

Lemma spawnDue_early (now : R) (s : Scene) :
  now < nextMeteorAt s -> spawnDue now s = false.
Proof.
  intro Hlt. unfold spawnDue, Rgeb.
  assert (Hc : Rleb (nextMeteorAt s) now = false) by now apply Rleb_false.
  rewrite Hc. apply andb_false_r.
Qed.

Lemma frame_no_meteor (fi : FrameIn) (s : Scene) :
  meteor s = None -> spawnDue (f_clockMeteors fi) s = false ->
  meteor (fst (frame fi s)) = None
  /\ existsb isFillHead (snd (frame fi s)) = false
  /\ existsb isStrokeTrail (snd (frame fi s)) = false.
Proof.
  intros Hnone Hdue.
  assert (Hdraw : forall sc clock lst scale,
             existsb isFillHead (drawStars sc clock lst scale) = false
             /\ existsb isStrokeTrail (drawStars sc clock lst scale) = false).
  { intros sc clock lst scale. unfold drawStars. cbv zeta.
    induction lst as [|st rest [IH1 IH2]]; [now split|].
    cbn [flat_map]. rewrite !existsb_app, IH1, IH2, !orb_false_r.
    unfold drawStar. cbv zeta.
    now destruct (Rgtb (s_r st) 1.6 && _). }
  unfold frame. cbv zeta.
  set (s2 := set_parallax _ _).
  assert (Hband : existsb isFillHead (snd (drawMilky s2)) = false
                  /\ existsb isStrokeTrail (snd (drawMilky s2)) = false).
  { unfold drawMilky. destruct (chkMilky s2); [|now split].
    destruct (dirty (milky s2) || _).
    - now destruct (texture (milky (makeMilkyTexture s2))).
    - now destruct (texture (milky s2)). }
  pose proof (drawMilky_spawnDue (f_clockMeteors fi) s2) as Hd3.
  pose proof (drawMilky_meteor s2) as Hm3.
  change (spawnDue (f_clockMeteors fi) s2)
    with (spawnDue (f_clockMeteors fi) s) in Hd3.
  change (meteor s2) with (meteor s) in Hm3.
  rewrite Hdue in Hd3. rewrite Hnone in Hm3.
  destruct (drawMilky s2) as [s3 band]. cbn [fst snd] in *.
  unfold handleMeteors, spawnPhase. cbv zeta. rewrite Hd3, Hm3.
  cbn [fst snd]. split; [exact Hm3|].
  destruct Hband as [Hb1 Hb2].
  destruct (Hdraw s3 (f_clockStars fi) (stars s3) 0.8) as [Ha1 Ha2].
  destruct (Hdraw s3 (f_clockBand fi) (bandStars s3) 1.2) as [Hc1 Hc2].
  cbn [existsb isFillHead isStrokeTrail orb].
  rewrite !existsb_app, Hb1, Hb2, Ha1, Ha2, Hc1, Hc2. now split.
Qed.

Lemma step_meteors_off (ev : Event) (s : Scene) :
  meteorsOffEvent ev -> chkMeteors s = false -> meteor s = None ->
  chkMeteors (step ev s) = false /\ meteor (step ev s) = None
  /\ spawnCalls (step ev s) = spawnCalls s
  /\ nextMeteorAt (step ev s) = nextMeteorAt s.
Proof.
  intros Hev Hoff Hnone.
  assert (Hother : (forall fi, ev <> EvFrame fi) ->
                   (forall b, ev <> EvToggleMeteors b) ->
                   chkMeteors (step ev s) = false
                   /\ meteor (step ev s) = None
                   /\ spawnCalls (step ev s) = spawnCalls s
                   /\ nextMeteorAt (step ev s) = nextMeteorAt s).
  { intros Hnf Hnt.
    destruct (step_schedule ev s Hnf) as (Hn & Hs & Hc).
    rewrite Hn, Hs, (Hc Hnt), Hoff.
    destruct (step_meteor ev s) as [Hm | [Hm | [fi Hfi]]].
    - rewrite Hm, Hnone. now repeat split.
    - rewrite Hm. now repeat split.
    - now elim (Hnf fi). }
  destruct ev as [vw vh | e | | b | b | b | fi];
    try (apply Hother; intros; discriminate).
  - cbn in Hev. subst b. now repeat split.
  - rewrite step_frame.
    pose proof (spawnDue_unchecked (f_clockMeteors fi) s Hoff) as Hdue.
    destruct (frame_schedule fi s) as (Hchk & Hkeep & _).
    destruct (Hkeep Hdue) as [-> ->].
    destruct (frame_no_meteor fi s Hnone Hdue) as (-> & _).
    rewrite Hchk. now repeat split.
Qed.

(** X18.  Unchecking the meteors toggle removes the meteor at once.
    While it stays unchecked, through any frames, resizes, clicks and
    pointer moves, no meteor exists, [spawnMeteor] is never called, the
    next-spawn timestamp does not move, and a frame draws neither a
    trail nor a head. *)
Theorem meteors_off_stays_empty :
  forall (s : Scene) (evs : list Event) (fi : FrameIn),
    Forall meteorsOffEvent evs ->
    let off := steps evs (step (EvToggleMeteors false) s) in
    meteor (step (EvToggleMeteors false) s) = None
    /\ meteor off = None
    /\ spawnCalls off = spawnCalls s
    /\ nextMeteorAt off = nextMeteorAt s
    /\ meteor (fst (frame fi off)) = None
    /\ existsb isFillHead (snd (frame fi off)) = false
    /\ existsb isStrokeTrail (snd (frame fi off)) = false.
Proof.
  intros s evs fi Hall. cbv zeta.
  set (s1 := step (EvToggleMeteors false) s).
  assert (H1 : chkMeteors s1 = false /\ meteor s1 = None
               /\ spawnCalls s1 = spawnCalls s
               /\ nextMeteorAt s1 = nextMeteorAt s) by now repeat split.
  split; [apply H1|]. clearbody s1.
  assert (Hoff : chkMeteors (steps evs s1) = false
                 /\ meteor (steps evs s1) = None
                 /\ spawnCalls (steps evs s1) = spawnCalls s
                 /\ nextMeteorAt (steps evs s1) = nextMeteorAt s).
  { revert s1 H1. induction Hall as [|ev rest Hev _ IH]; intros s1 H1.
    - exact H1.
    - cbn [steps fold_left]. apply IH.
      destruct H1 as (Hc & Hm & Hs & Hn).
      destruct (step_meteors_off ev s1 Hev Hc Hm) as (Hc' & Hm' & Hs' & Hn').
      rewrite Hs', Hn'. now repeat split. }
  destruct Hoff as (Hc & Hm & Hs & Hn).
  split; [exact Hm|]. split; [exact Hs|]. split; [exact Hn|].
  apply frame_no_meteor; [exact Hm|]. now apply spawnDue_unchecked.
Qed.

(** X19.  After a frame that spawns a meteor at clock reading [t], the
    next spawn is due between [t + 3800] and [t + 9500], and no later
    event spawns as long as the frames' clock readings stay below
    [t + 3800]: two spawns are never less than 3800 ms apart. *)
Theorem spawns_are_spaced :
  forall (s : Scene) (fi : FrameIn) (evs : list Event),
    spawnDue (f_clockMeteors fi) s = true ->
    Forall (clockBefore (f_clockMeteors fi + 3800)) evs ->
    let s1 := fst (frame fi s) in
    spawnCalls s1 = S (spawnCalls s)
    /\ f_clockMeteors fi + 3800 <= nextMeteorAt s1 <= f_clockMeteors fi + 9500
    /\ spawnCalls (steps evs s1) = S (spawnCalls s)
    /\ nextMeteorAt (steps evs s1) = nextMeteorAt s1.
Proof.
  intros s fi evs Hdue Hall. cbv zeta.
  destruct (frame_schedule fi s) as (_ & _ & Hsp).
  destruct (Hsp Hdue) as (Hlo & Hhi & Hcalls).
  split; [exact Hcalls|]. split; [now split|].
  rewrite <- Hcalls.
  remember (fst (frame fi s)) as s1 eqn:Es1. clear Es1 Hcalls Hhi Hsp Hdue.
  revert s1 Hlo. induction Hall as [|ev rest Hev _ IH]; intros s1 Hlo.
  - now split.
  - cbn [steps fold_left].
    assert (Hstep : spawnCalls (step ev s1) = spawnCalls s1
                    /\ nextMeteorAt (step ev s1) = nextMeteorAt s1).
    { assert (Hother : (forall fi', ev <> EvFrame fi') ->
                       spawnCalls (step ev s1) = spawnCalls s1
                       /\ nextMeteorAt (step ev s1) = nextMeteorAt s1).
      { intro Hnf. destruct (step_schedule ev s1 Hnf) as (Hn & Hs & _).
        now split. }
      destruct ev as [vw vh | e | | b | b | b | fi'];
        try (apply Hother; intros; discriminate).
      rewrite step_frame. cbn in Hev.
      destruct (frame_schedule fi' s1) as (_ & Hkeep & _).
      destruct Hkeep as [-> ->]; [|now split].
      apply spawnDue_early. lra. }
    destruct Hstep as [Hs Hn].
    destruct (IH (step ev s1)) as [IH1 IH2]; [now rewrite Hn|].
    unfold steps in *. rewrite IH1, IH2, Hs, Hn. now split.
Qed.

(** ** The frame *)

Lemma drawMilky_output (s : Scene) :
  (chkMilky s = false -> snd (drawMilky s) = [])
  /\ (chkMilky s = true ->
      exists tex,
        texture (milky (fst (drawMilky s))) = Some tex
        /\ snd (drawMilky s)
           = [DrawImage tex 0.9 (tex_width tex / DPR)
                (tex_height tex / DPR)]).
Proof.
  unfold drawMilky. split; intro Hk; rewrite Hk; [reflexivity|].
  destruct (dirty (milky s) || _) eqn:Hst.
  - destruct (makeMilkyTexture_band s) as (_ & _ & _ & Ht).
    destruct (texture (milky (makeMilkyTexture s))) as [tex|] eqn:E;
      [|now elim Ht].
    exists tex. cbn [fst snd]. now split.
  - apply orb_false_iff in Hst as [_ Htex].
    destruct (texture (milky s)) as [tex|] eqn:E; [|discriminate].
    exists tex. cbn [fst snd]. now split.
Qed.

Lemma handleMeteors_no_disc (now dt : R) (s : Scene) :
  fillOpacities (snd (handleMeteors now dt s)) = [].
Proof.
  destruct (handleMeteors_output now dt s) as [Hnone Hsome].
  destruct (meteor (spawnPhase now s)) as [m|] eqn:Hm.
  - destruct (Hsome m eq_refl) as (segs & ha & -> & _ & Hall & _).
    rewrite fillOpacities_app. cbn.
    rewrite app_nil_r. clear -Hall.
    induction Hall as [|c rest Hc _ IH]; [reflexivity|].
    destruct c; cbn in Hc; try contradiction. exact IH.
  - now rewrite Hnone.
Qed.

Lemma makeMilkyTexture_chkTwinkle : keeps chkTwinkle makeMilkyTexture.
Proof. keep_field. Qed.

Lemma fillOpacities_no_disc_band (s : Scene) :
  fillOpacities (snd (drawMilky s)) = [].
Proof.
  destruct (drawMilky_output s) as [Hoff Hon].
  destruct (chkMilky s).
  - destruct (Hon eq_refl) as (tex & _ & ->). reflexivity.
  - now rewrite Hoff.
Qed.

Lemma countCmds_app (p : Cmd -> bool) (c1 c2 : list Cmd) :
  countCmds p (c1 ++ c2) = (countCmds p c1 + countCmds p c2)%nat.
Proof. unfold countCmds. now rewrite filter_app, length_app. Qed.

Lemma countCmds_cons (p : Cmd -> bool) (c : Cmd) (cmds : list Cmd) :
  countCmds p (c :: cmds)
  = ((if p c then 1 else 0) + countCmds p cmds)%nat.
Proof. unfold countCmds. cbn. now destruct (p c). Qed.

Lemma countCmds_none (p : Cmd -> bool) (cmds : list Cmd) :
  existsb p cmds = false -> countCmds p cmds = O.
Proof.
  unfold countCmds. induction cmds as [|c rest IH]; [reflexivity|].
  cbn. destruct (p c); [discriminate|]. exact IH.
Qed.

(** X20.  A frame clears the canvas first.  It draws the band texture
    exactly once when the band toggle is checked and never otherwise,
    and after a frame with the band checked the cache is not stale.  It
    paints exactly one disc per general star and then one per band
    star, with the opacities of [starAlpha] at the two clock readings.
    It records its timestamp as [last] and leaves the viewport size
    alone. *)
Theorem frame_output :
  forall (fi : FrameIn) (s : Scene),
    (exists rest, snd (frame fi s) = ClearRect (W s) (H s) :: rest)
    /\ countCmds isDrawImage (snd (frame fi s))
       = (if chkMilky s then 1 else 0)%nat
    /\ (chkMilky s = true -> stale (milky (fst (frame fi s))) = false)
    /\ fillOpacities (snd (frame fi s))
       = map (starAlpha (chkTwinkle s) (f_clockStars fi / 1000)) (stars s)
         ++ map (starAlpha (chkTwinkle s) (f_clockBand fi / 1000))
              (bandStars s)
    /\ W (fst (frame fi s)) = W s /\ H (fst (frame fi s)) = H s.
Proof.
  intros fi s.
  split.
  { unfold frame. cbv zeta. destruct (drawMilky _) as [s3 band].
    destruct (handleMeteors _ _ s3) as [s4 met]. eexists. reflexivity. }
  assert (Hshape : snd (frame fi s)
    = ClearRect (W s) (H s)
      :: snd (drawMilky (set_parallax (easeParallax (parallax s))
                           (set_last (f_now fi) s)))
      ++ drawStars (set_parallax (easeParallax (parallax s))
                      (set_last (f_now fi) s))
           (f_clockStars fi) (stars s) 0.8
      ++ drawStars (set_parallax (easeParallax (parallax s))
                      (set_last (f_now fi) s))
           (f_clockBand fi) (bandStars s) 1.2
      ++ snd (handleMeteors (f_clockMeteors fi) (f_now fi - last s)
                (fst (drawMilky (set_parallax (easeParallax (parallax s))
                                   (set_last (f_now fi) s)))))).
  { unfold frame. cbv zeta.
    set (s2 := set_parallax _ _).
    destruct (drawMilky_seed s2) as (_ & _ & _ & Hst & Hbs & _).
    assert (Htw : chkTwinkle (fst (drawMilky s2)) = chkTwinkle s).
    { destruct (drawMilky_cases s2) as [-> | ->]; [reflexivity|].
      exact (makeMilkyTexture_chkTwinkle s2). }
    assert (Hpar : parallax (fst (drawMilky s2)) = parallax s2)
      by apply drawMilky_parallax.
    destruct (drawMilky s2) as [s3 band]. cbn [fst snd] in *.
    destruct (handleMeteors _ _ s3) as [s4 met]. cbn [fst snd].
    unfold drawStars. rewrite Hst, Hbs, Htw, Hpar. reflexivity. }
  split.
  { rewrite Hshape. rewrite countCmds_cons. cbn [isDrawImage].
    rewrite !countCmds_app.
    rewrite (countCmds_none _ _ (drawStars_no_image _ _ _ _)).
    rewrite (countCmds_none _ _ (drawStars_no_image _ _ _ _)).
    rewrite (countCmds_none _ _ (handleMeteors_no_image _ _ _)).
    destruct (drawMilky_output
                (set_parallax (easeParallax (parallax s))
                   (set_last (f_now fi) s))) as [Hoff Hon].
    change (chkMilky (set_parallax (easeParallax (parallax s))
                        (set_last (f_now fi) s)))
      with (chkMilky s) in Hoff, Hon.
    destruct (chkMilky s).
    - destruct (Hon eq_refl) as (tex & _ & ->). reflexivity.
    - now rewrite Hoff. }
  split; [intro Hon; now apply frame_band_on|].
  split; [|apply frame_size].
  rewrite Hshape. cbn [fillOpacities].
  rewrite !fillOpacities_app, fillOpacities_no_disc_band,
    handleMeteors_no_disc, !drawStars_opacities.
  cbn [app]. now rewrite app_nil_r.
Qed.

(** ** Twinkle and parallax *)

(** X21.  The twinkle factor lies in [[0, 1]].  For a star whose base
    opacity is in [[0.05, 1]], as every generated star's is, twinkling
    never makes it brighter than its base opacity, and with twinkling
    off it is drawn at exactly its base opacity. *)
Theorem twinkle_never_brightens :
  forall (on : bool) (t : R) (st : Star),
    0 <= twinkle on t st <= 1
    /\ (0.05 <= baseAlpha st <= 1 ->
        starAlpha false t st = baseAlpha st
        /\ starAlpha on t st <= baseAlpha st).
Proof.
  intros on t st.
  assert (Htw : 0 <= twinkle on t st <= 1).
  { unfold twinkle. destruct on; [|lra].
    pose proof (SIN_bound (t * twinkleSpeed st + phase st)) as [? ?].
    unfold Math_sin. lra. }
  split; [exact Htw|]. intros Hb.
  assert (Hoff : starAlpha false t st = baseAlpha st).
  { unfold starAlpha, twinkle.
    replace (baseAlpha st * 1.0) with (baseAlpha st) by lra.
    apply clamp_inside. lra. }
  split; [exact Hoff|].
  apply Rle_trans with (starAlpha false t st); [|rewrite Hoff; lra].
  unfold starAlpha. apply clamp_monotone.
  unfold twinkle at 2. nra.
Qed.




Lemma drawStar_first (on : bool) (p : Parallax) (t scale : R) (st : Star) :
  exists rest,
    drawStar on p t scale st
    = FillStar (s_x st + px p * (1 - depth st) * 14 * scale)
        (s_y st + py p * (1 - depth st) * 10 * scale)
        (s_r st) (starAlpha on t st) (s_r st * 6) (glow st) (color st)
      :: rest.
Proof. unfold drawStar. cbv zeta. eexists. reflexivity. Qed.

(** X23.  With the current parallax offset in [[-1, 1]], a star of depth
    between 0 and 1 is painted at most [14 * scale * (1 - depth)] pixels
    to the side of its own position and at most
    [10 * scale * (1 - depth)] pixels above or below it; a star of
    depth 1 does not move at all. *)
Theorem star_parallax_shift_bounded :
  forall (on : bool) (p : Parallax) (t scale : R) (st : Star),
    currentInRange p -> 0 <= depth st <= 1 -> 0 <= scale ->
    exists x y rest,
      map discCentre (drawStar on p t scale st) = Some (x, y) :: rest
      /\ Rabs (x - s_x st) <= 14 * scale * (1 - depth st)
      /\ Rabs (y - s_y st) <= 10 * scale * (1 - depth st)
      /\ (depth st = 1 -> x = s_x st /\ y = s_y st).
Proof.
  intros on p t scale st [[Hx0 Hx1] [Hy0 Hy1]] [Hd0 Hd1] Hs.
  destruct (drawStar_first on p t scale st) as (rest & ->).
  do 3 eexists. split; [reflexivity|].
  assert (Hk : 0 <= (1 - depth st) * scale) by nra.
  split; [|split].
  - apply Rabs_le. split; nra.
  - apply Rabs_le. split; nra.
  - intros ->. split; lra.
Qed.

(** ** Pointer input inside the viewport *)

(** X24.  In a viewport of positive size, a pointer position inside the
    viewport gives a target in [[-1, 1]] on both axes: the left and top
    edges give -1, the right and bottom edges 1.  A touch event (no
    [clientX]/[clientY]) is read from its first touch point.  The
    handler changes the target only: the current offset stays. *)
Theorem pointer_target_normalised :
  forall (e : PointerEvt) (s : Scene),
    0 < W s -> 0 < H s ->
    (0 <= pointerX e (W s / 2) <= W s ->
     0 <= pointerY e (H s / 2) <= H s ->
     targetInRange (parallax (onPointer e s)))
    /\ (forall x y, clientX e = Some x -> clientY e = Some y ->
          targetX (parallax (onPointer e s)) = x / W s * 2 - 1
          /\ targetY (parallax (onPointer e s)) = y / H s * 2 - 1)
    /\ (forall tx ty more,
          clientX e = None -> clientY e = None ->
          touches e = (tx, ty) :: more ->
          targetX (parallax (onPointer e s)) = tx / W s * 2 - 1
          /\ targetY (parallax (onPointer e s)) = ty / H s * 2 - 1)
    /\ (clientX e = Some 0 -> targetX (parallax (onPointer e s)) = -1)
    /\ (clientX e = Some (W s) -> targetX (parallax (onPointer e s)) = 1)
    /\ px (parallax (onPointer e s)) = px (parallax s)
    /\ py (parallax (onPointer e s)) = py (parallax s).
Proof.
  intros e s HW HH.
  destruct (onPointer_target e s) as [Ex Ey].
  split.
  { intros Hx Hy. unfold targetInRange. rewrite Ex, Ey.
    split; now apply normalise_inRange. }
  split.
  { intros x y Hx Hy. rewrite Ex, Ey. unfold pointerX, pointerY.
    now rewrite Hx, Hy. }
  split.
  { intros tx ty more Hx Hy Ht. rewrite Ex, Ey. unfold pointerX, pointerY.
    now rewrite Hx, Hy, Ht. }
  split.
  { intro Hx. rewrite Ex. unfold pointerX. rewrite Hx. field. lra. }
  split.
  { intro Hx. rewrite Ex. unfold pointerX. rewrite Hx. field. lra. }
  split; reflexivity.
Qed.

(** ** The falloff of band stars *)

Lemma bandAttempt_falloff (w h : R) (k : Milky) (i i' : nat) (st : Star) :
  bandAttempt w h k i = (Some st, i') ->
  exists d j,
    (s_y st - h / 2) * Math_cos (angle k)
    - (s_x st - w / 2) * Math_sin (angle k) = d
    /\ depth st = clamp (1 - falloff k d * 0.9) 0.1 0.95
    /\ baseAlpha st = clamp (0.3 + falloff k d * 0.7) 0.25 1
    /\ s_r st = j * (0.8 + falloff k d)
    /\ 0.6 <= j < 2.2.
Proof.
  unfold bandAttempt. cbv zeta. unfold bind at 1. rewrite rand_value.
  unfold bind at 1. destruct (gaussian (S i)) as [g i1].
  set (d := g * (width k * 0.35)).
  set (t := draw rs i * (Math_hypot w h - - Math_hypot w h)
            + - Math_hypot w h).
  destruct (Rltb _ (-50) || _ || _ || _).
  - unfold ret. discriminate.
  - unfold bind. repeat (rewrite rand_value; cbv beta iota zeta).
    unfold ret. intros [= <- <-]. cbn [s_x s_y depth baseAlpha s_r].
    exists d, (draw rs i1 * (2.2 - 0.6) + 0.6).
    pose proof (draw_range rs i1) as [? ?].
    split.
    { pose proof (sin2_cos2 (angle k)) as Hsc. unfold Rsqr in Hsc.
      unfold Math_cos, Math_sin.
      transitivity (d * (sin (angle k) * sin (angle k)
                         + cos (angle k) * cos (angle k))); [ring|].
      rewrite Hsc. ring. }
    split; [reflexivity|]. split; [reflexivity|].
    split; [reflexivity | lra].
Qed.

Lemma falloff_decreasing (k : Milky) (d1 d2 : R) :
  0 < width k -> d1 * d1 <= d2 * d2 -> falloff k d2 <= falloff k d1.
Proof.
  intros Hw Hd. unfold falloff, Math_exp.
  assert (Hp : 0 < Math_pow (width k * 0.45) 2).
  { unfold Math_pow. destruct (Rlt_dec 0 (width k * 0.45)); [|lra].
    unfold Rpower. apply exp_pos. }
  assert (Hinv : 0 < / (2 * Math_pow (width k * 0.45) 2))
    by (apply Rinv_0_lt_compat; lra).
  assert (Hle : - (d2 * d2) / (2 * Math_pow (width k * 0.45) 2)
                <= - (d1 * d1) / (2 * Math_pow (width k * 0.45) 2)).
  { unfold Rdiv. apply Rmult_le_compat_r; lra. }
  destruct Hle as [Hlt | ->]; [|lra].
  left. now apply exp_increasing.
Qed.

(** X25.  For every star of [makeBandStars] let [d] be its signed
    perpendicular distance from the band's centre line through the
    middle of the viewport.  Its depth, base opacity and radius are
    computed from the Gaussian falloff of [d]: depth
    [clamp(1 - 0.9 f, 0.1, 0.95)], opacity [clamp(0.3 + 0.7 f, 0.25, 1)],
    radius [j (0.8 + f)] with a jitter [j] in [[0.6, 2.2)].  With a
    positive band width the falloff is 1 on the centre line and does
    not grow with the distance, so nearer to the centre line the depth
    is not larger and the opacity not smaller. *)
Theorem band_star_falloff :
  (forall (w h : R) (k : Milky) (count i : nat) (st : Star),
      In st (fst (makeBandStars w h k count i)) ->
      exists d j,
        (s_y st - h / 2) * Math_cos (angle k)
        - (s_x st - w / 2) * Math_sin (angle k) = d
        /\ depth st = clamp (1 - falloff k d * 0.9) 0.1 0.95
        /\ baseAlpha st = clamp (0.3 + falloff k d * 0.7) 0.25 1
        /\ s_r st = j * (0.8 + falloff k d)
        /\ 0.6 <= j < 2.2)
  /\ (forall (k : Milky) (d1 d2 : R),
         0 < width k -> d1 * d1 <= d2 * d2 ->
         falloff k d2 <= falloff k d1
         /\ clamp (1 - falloff k d1 * 0.9) 0.1 0.95
            <= clamp (1 - falloff k d2 * 0.9) 0.1 0.95
         /\ clamp (0.3 + falloff k d2 * 0.7) 0.25 1
            <= clamp (0.3 + falloff k d1 * 0.7) 0.25 1)
  /\ (forall k : Milky, falloff k 0 = 1).
Proof.
  split; [|split].
  - intros w h k count i st Hin.
    apply makeBandStars_In in Hin as (a & a' & Hatt).
    exact (bandAttempt_falloff w h k a a' st Hatt).
  - intros k d1 d2 Hw Hd.
    pose proof (falloff_decreasing k d1 d2 Hw Hd) as Hf.
    split; [exact Hf|]. split; apply clamp_monotone; lra.
  - intro k. unfold falloff, Math_exp.
    replace (- (0 * 0) / (2 * Math_pow (width k * 0.45) 2)) with 0
      by (unfold Rdiv; ring).
    apply exp_0.
Qed.

Lemma bandLoop_first_accept (w h : R) (k : Milky) (f i i' : nat)
    (st : Star) :
  bandAttempt w h k i = (Some st, i') ->
  bandLoop (S (S f)) w h k 1 [] O i = (Some ([st], 1%nat), i').
Proof.
  intro Hatt. cbn [bandLoop length]. 
  change ((0 <? 1) && (0 <? 1 * 30))%nat with true. cbv iota.
  unfold bind. rewrite Hatt. reflexivity.
Qed.

End Script.

(** * Examples on concrete scenes *)

Lemma sceneLateMeteor_not_due (now : R) : spawnDue now sceneLateMeteor = false.
Proof.
  apply (spawnDue_blocked now sceneLateMeteor lateMeteor); [reflexivity|].
  cbn. lra.
Qed.

(** The meteor of [sceneLateMeteor] expires in a 16 ms frame at 1510 ms;
    the next-spawn timestamp stays at 4800, which is not 1510 plus a gap
    of 3800 to 9500.  Unchecking the meteors toggle removes the meteor
    and leaves the timestamp at 4800 as well. *)
Lemma next_spawn_kept_on_expiry :
  meteor sceneLateMeteor = Some lateMeteor
  /\ meteor (fst (handleMeteors halfSource 1510 16 sceneLateMeteor)) = None
  /\ ~ (exists g, 3800 <= g <= 9500
          /\ nextMeteorAt (fst (handleMeteors halfSource 1510 16
                                  sceneLateMeteor)) = 1510 + g)
  /\ meteor (onToggleMeteors false sceneLateMeteor) = None
  /\ nextMeteorAt (onToggleMeteors false sceneLateMeteor) = 4800.
Proof.
  split; [reflexivity|]. split; [|split; [|split; reflexivity]].
  - rewrite handleMeteors_meteor, spawnPhase_meteor, sceneLateMeteor_not_due.
    cbn. unfold cleanupDue, expired, offscreen. cbn. rcompare. reflexivity.
  - rewrite handleMeteors_nextMeteorAt, spawnPhase_nextMeteorAt,
      sceneLateMeteor_not_due.
    cbn. intros (g & Hg & E). lra.
Qed.

Lemma next_spawn_set_on_spawn_only_witness :
  nextMeteorAt (fst (handleMeteors halfSource 1510 16 sceneLateMeteor)) =
  nextMeteorAt sceneLateMeteor.
Proof.
  apply (proj1 (next_spawn_set_on_spawn_only halfSource 1)
           1510 16 sceneLateMeteor).
  apply sceneLateMeteor_not_due.
Defined.

(** With the draws of [twoStarDraws], [makeStars(2, 0.2, 1.0)] returns a
    star of depth 0.2 and a star of depth 0.3, and the nearer one (depth
    0.3) has the larger radius: its jitter is 1.5 against 0.6. *)
Lemma nearer_star_with_larger_radius :
  exists a b,
    fst (makeStars twoStarSource 800 600 2 0.2 1.0 O) = [a; b]
    /\ depth a < depth b
    /\ s_r a < s_r b.
Proof.
  eexists. eexists. split; [reflexivity|].
  cbn [depth s_r]. split.
  - cbn. unfold scripted, twoStarDraws. cbn [nth]. lra.
  - cbn. unfold scripted, twoStarDraws. cbn [nth]. unfold starRadius.
    replace (1 - (0 * (1.0 - 0.2) + 0.2)) with 0.8 by lra.
    replace (1 - (1 / 8 * (1.0 - 0.2) + 0.2)) with 0.7 by lra.
    pose proof (Math_pow_fraction 0.8) as Ha.
    pose proof (Math_pow_fraction 0.7) as Hb.
    lra.
Qed.

(** C7.  [onPointer] does not clamp: with a viewport 800 wide, a pointer
    event at [clientX = 1000] sets the horizontal target to 1.5, outside
    [[-1,1]] (the comment on line 194 says [[-1, 1]]). *)
Theorem pointer_target_leaves_range :
  targetX (parallax (onPointer dragOutside sceneNoMeteor)) = 1.5
  /\ targetY (parallax (onPointer dragOutside sceneNoMeteor)) = 0
  /\ ~ targetInRange (parallax (onPointer dragOutside sceneNoMeteor)).
Proof.
  assert (Hx : targetX (parallax (onPointer dragOutside sceneNoMeteor)) = 1.5)
    by (cbn; lra).
  assert (Hy : targetY (parallax (onPointer dragOutside sceneNoMeteor)) = 0)
    by (cbn; lra).
  repeat split; try assumption.
  unfold targetInRange, inRange. rewrite Hx. lra.
Qed.

Lemma meteor_cleared_within_one_step_witness :
  meteor (fst (handleMeteors halfSource 1510 16 sceneLateMeteor)) = None.
Proof.
  apply (meteor_cleared_within_one_step halfSource 1510 16 sceneLateMeteor
           lateMeteor).
  - rewrite spawnPhase_meteor, sceneLateMeteor_not_due. reflexivity.
  - left. cbn. lra.
Defined.

Lemma trail_never_exceeds_cap_witness :
  length (trail (fold_left (fun acc dt => advanceMeteor dt acc) [16; 16]
                   lateMeteor)) = Nat.min (1 + 2) 120.
Proof.
  apply (trail_never_exceeds_cap halfSource 1). cbn. lia.
Defined.

(** One frame moves the offset of [sceneDrifting] from (0.5, -0.25) to
    (0.53, -0.175), 6 percent of the way to the target (1, 1). *)
Lemma sceneDrifting_moves :
  px (parallax (steps halfSource 1 [EvFrame frameIn0] sceneDrifting)) = 0.53
  /\ py (parallax (steps halfSource 1 [EvFrame frameIn0] sceneDrifting))
     = -0.175.
Proof.
  cbn [steps fold_left]. rewrite step_frame, frame_parallax.
  cbn. split; lra.
Qed.

Lemma parallax_stays_in_range_witness :
  currentInRange
    (parallax (steps halfSource 1 (map EvFrame [frameIn0; frameIn0])
                 sceneDrifting))
  /\ targetInRange
       (parallax (steps halfSource 1 (map EvFrame [frameIn0; frameIn0])
                    sceneDrifting)).
Proof.
  apply (parallax_stays_in_range halfSource 1 [frameIn0; frameIn0]
           sceneDrifting).
  - unfold targetInRange, inRange. cbn. lra.
  - unfold currentInRange, inRange. cbn. lra.
Defined.

Lemma quietEvents_band_off : Forall bandOffEvent quietEvents.
Proof. unfold quietEvents. repeat constructor. Qed.

(** The booted scene has the band checked and a texture built once.
    Unchecking the band, running [quietEvents] and checking it again
    leaves the cache valid: the next frame does not rebuild. *)
Lemma band_toggle_keeps_texture_cache_witness :
  chkMilky (boot halfSource 1 bootEnv0) = true
  /\ stale (milky (boot halfSource 1 bootEnv0)) = false
  /\ textureCalls (boot halfSource 1 bootEnv0) = 1%nat
  /\ textureCalls
       (fst (frame halfSource 1 frameIn0
               (step halfSource 1 (EvToggleMilky true)
                  (steps halfSource 1 quietEvents
                     (step halfSource 1 (EvToggleMilky false)
                        (boot halfSource 1 bootEnv0))))))
     = 1%nat.
Proof.
  destruct (boot_cache halfSource 1 bootEnv0) as (Hst & Htc & Hck).
  pose proof (band_toggle_keeps_texture_cache halfSource 1
                (boot halfSource 1 bootEnv0)
                quietEvents frameIn0 quietEvents_band_off) as Hall.
  destruct Hall as (_ & _ & _ & _ & _ & _ & _ & Hre & _).
  rewrite Hst, Htc in Hre.
  split; [exact Hck|]. split; [exact Hst|]. split; [exact Htc|].
  exact Hre.
Defined.

Lemma general_star_depth_and_radius_witness :
  exists a b,
    fst (makeStars twoStarSource 800 600 2 0.2 1.0 O) = [a; b]
    /\ 0.2 <= depth b <= 1.0
    /\ exists jitter, 0.6 <= jitter <= 1.8
         /\ s_r b = starRadius (depth b) jitter.
Proof.
  assert (Hd : 0.2 <= 1.0 <= 1) by lra.
  eexists. eexists. split; [reflexivity|].
  apply (proj1 (proj2 (general_star_depth_and_radius twoStarSource
                         800 600 2 0.2 1.0 O Hd))).
  right. left. reflexivity.
Defined.

Lemma makeBandStars_within_budget_witness :
  exists arr tries j,
    makeBandStars halfSource 800 600 flatBand 7 O = (arr, j)
    /\ (tries <= 30 * 7)%nat /\ (length arr <= 7)%nat.
Proof.
  destruct (makeBandStars_within_budget halfSource 800 600 flatBand 7 O)
    as (arr & tries & j & _ & Hrun & Ht & Hl & _).
  exists arr, tries, j. now repeat split.
Defined.

(** ** A reachable scene that holds a meteor *)

Lemma halfSource_draw (i : nat) : draw halfSource i = 1 / 2.
Proof. cbn. unfold scripted. now destruct i. Qed.

Lemma spawn_with_half_draws (w h a : R) (j : nat) :
  m_x (fst (spawnMeteorGen halfSource w h a j)) = w * 1.05
  /\ m_y (fst (spawnMeteorGen halfSource w h a j)) = h * 0.125
  /\ life (fst (spawnMeteorGen halfSource w h a j)) = 800
  /\ age (fst (spawnMeteorGen halfSource w h a j)) = 0.
Proof.
  unfold spawnMeteorGen, bind, Math_random.
  rewrite halfSource_draw.
  assert (Hright : Rltb (1 / 2) 0.5 = false) by (apply Rltb_false; lra).
  rewrite Hright.
  repeat (rewrite rand_value; cbv beta iota zeta).
  rewrite !halfSource_draw. unfold ret. cbn.
  repeat split; lra.
Qed.

(** Seven seconds after boot with the meteors toggle checked, one frame
    spawns a meteor and keeps it: the scene after that frame holds an
    Active meteor. *)
Lemma scene_after_spawn_holds_meteor :
  exists m,
    meteor (step halfSource 1 (EvFrame spawnFrame)
              (boot halfSource 1 bootEnv0)) = Some m
    /\ Active (W (step halfSource 1 (EvFrame spawnFrame)
                    (boot halfSource 1 bootEnv0)))
              (H (step halfSource 1 (EvFrame spawnFrame)
                    (boot halfSource 1 bootEnv0))) m.
Proof.
  destruct (boot_globals halfSource 1 bootEnv0)
    as (HW & HH & Hchk & Hnext & Hlast).
  pose proof (boot_meteor halfSource 1 bootEnv0) as Hnone.
  remember (boot halfSource 1 bootEnv0) as s0 eqn:Hs0. clear Hs0.
  rewrite halfSource_draw in Hnext.
  assert (Hdue : spawnDue (f_clockMeteors spawnFrame) s0 = true).
  { apply spawnDue_ready; [now rewrite Hchk | exact Hnone |].
    rewrite Hnext. unfold METEOR_MAX_GAP, METEOR_MIN_GAP. cbn. lra. }
  destruct (frame_spawns halfSource 1 spawnFrame s0 Hdue) as (a & j & Hm).
  rewrite step_frame.
  destruct (frame_size halfSource 1 spawnFrame s0) as [-> ->].
  rewrite Hm, HW, HH, Hlast.
  destruct (spawn_with_half_draws (innerWidth bootEnv0)
              (innerHeight bootEnv0) a j) as (Hx & Hy & Hlife & Hage).
  remember (fst (spawnMeteorGen halfSource (innerWidth bootEnv0)
                   (innerHeight bootEnv0) a j)) as m0 eqn:Hm0.
  clear Hm0.
  assert (Hact : Active (innerWidth bootEnv0) (innerHeight bootEnv0)
                   (advanceMeteor (f_now spawnFrame - clock1 bootEnv0) m0)).
  { unfold Active, advanceMeteor. cbn [age life m_x m_y].
    rewrite Hx, Hy, Hlife, Hage. cbn.
    replace ((1 - 1) / 1000) with 0 by lra. rewrite !Rmult_0_r. lra. }
  exists (advanceMeteor (f_now spawnFrame - clock1 bootEnv0) m0).
  split; [|exact Hact].
  apply cleanupDue_false in Hact. now rewrite Hact.
Qed.

(** ** The band-field generator running out of attempts *)

Lemma stallSource_draws (n : nat) :
  draw stallSource (3 * n)%nat = 0
  /\ draw stallSource (S (3 * n)) = 1 / 2
  /\ draw stallSource (S (S (3 * n))) = 1 / 2.
Proof.
  induction n as [|n IH]; [now cbn|].
  replace (3 * S n)%nat with (S (S (S (3 * n)))) by lia.
  exact IH.
Qed.

Lemma hypot_800_600 : Math_hypot 800 600 = 1000.
Proof.
  unfold Math_hypot.
  replace (800 * 800 + 600 * 600) with (1000 * 1000) by lra.
  apply sqrt_square. lra.
Qed.

(** With these draws every sampled point lies 600 pixels to the left of
    an 800 x 600 viewport and is rejected. *)
Lemma stall_attempt_rejected (n : nat) :
  bandAttempt stallSource 800 600 flatBand (3 * n)%nat = (None, (3 * S n)%nat).
Proof.
  destruct (stallSource_draws n) as (H0 & H1 & H2).
  unfold bandAttempt. cbv zeta. unfold bind at 1. rewrite rand_value, H0.
  unfold bind at 1. unfold gaussian. unfold bind at 1.
  rewrite nonzero_random_hit by (rewrite H1; lra).
  unfold bind at 1.
  rewrite nonzero_random_hit by (rewrite H2; lra).
  unfold ret at 1.
  rewrite hypot_800_600. unfold flatBand. cbn [angle width].
  unfold Math_cos, Math_sin. rewrite cos_0, sin_0.
  match goal with
  | |- (if Rltb ?x (-50) || _ || _ || _ then _ else _) _ = _ =>
      assert (Hx : Rltb x (-50) = true) by (apply Rltb_true; lra);
      rewrite Hx
  end.
  cbn [orb]. unfold ret. f_equal. lia.
Qed.

Lemma stall_loop (count : nat) :
  forall (fuel tries n : nat),
    (tries <= count * 30)%nat -> (count * 30 - tries < fuel)%nat ->
    (0 < count)%nat ->
    bandLoop stallSource fuel 800 600 flatBand count [] tries (3 * n)%nat
    = (Some ([], (count * 30)%nat), (3 * (n + (count * 30 - tries)))%nat).
Proof.
  induction fuel as [|f IH]; intros tries n Ht Hf Hc; [lia|].
  cbn [bandLoop length].
  destruct (Nat.ltb_spec tries (count * 30)) as [Hlt | Hge].
  - replace (0 <? count)%nat with true by (symmetry; now apply Nat.ltb_lt).
    cbn [andb]. unfold bind. rewrite stall_attempt_rejected.
    rewrite IH by lia. do 2 f_equal. lia.
  - rewrite andb_false_r. unfold ret.
    replace tries with (count * 30)%nat by lia.
    do 2 f_equal. lia.
Qed.

(** The attempt budget exhausted: asked for [count] stars, the generator
    returns none after [30 * count] attempts (three draws each). *)
Lemma makeBandStars_budget_exhausted (count : nat) :
  (0 < count)%nat ->
  makeBandStars_fuel stallSource (S (count * 30)) 800 600 flatBand count O
  = (Some ([], (30 * count)%nat), (90 * count)%nat)
  /\ makeBandStars stallSource 800 600 flatBand count O
     = ([], (90 * count)%nat).
Proof.
  intro Hc.
  assert (Hrun : makeBandStars_fuel stallSource (S (count * 30)) 800 600
                   flatBand count O
                 = (Some ([], (30 * count)%nat), (90 * count)%nat)).
  { unfold makeBandStars_fuel.
    pose proof (stall_loop count (S (count * 30)) O O) as Hloop.
    change (3 * 0)%nat with O in Hloop.
    rewrite Hloop by lia.
    replace (count * 30)%nat with (30 * count)%nat by lia.
    replace (3 * (0 + (30 * count - 0)))%nat with (90 * count)%nat by lia.
    reflexivity. }
  split; [exact Hrun|].
  unfold makeBandStars, bind. now rewrite Hrun.
Qed.

Lemma single_meteor_no_spawn_while_active_witness :
  spawnCalls (fst (frame halfSource 1 frameIn0
                     (step halfSource 1 (EvFrame spawnFrame)
                        (boot halfSource 1 bootEnv0))))
  = spawnCalls (step halfSource 1 (EvFrame spawnFrame)
                  (boot halfSource 1 bootEnv0)).
Proof.
  destruct scene_after_spawn_holds_meteor as (m & Hm & Hact).
  exact (proj1 (proj2
           (single_meteor_no_spawn_while_active halfSource 1 _
              (reach_step halfSource 1 _ (EvFrame spawnFrame)
                 (reach_boot halfSource 1 bootEnv0))))
         frameIn0 m Hm Hact).
Defined.

(** * Examples for the further properties *)

Lemma halfSource_gaussian (i : nat) :
  gaussian halfSource i
  = (Math_sqrt (-2.0 * Math_log (1 / 2)) * Math_cos (2.0 * PI * (1 / 2)),
     S (S i)).
Proof.
  unfold gaussian, bind.
  rewrite nonzero_random_hit by (rewrite halfSource_draw; lra).
  rewrite nonzero_random_hit by (rewrite halfSource_draw; lra).
  rewrite !halfSource_draw. reflexivity.
Qed.

Lemma half_gaussian_small :
  -2 <= Math_sqrt (-2.0 * Math_log (1 / 2)) * Math_cos (2.0 * PI * (1 / 2))
     <= 2.
Proof.
  unfold Math_sqrt, Math_log, Math_cos.
  assert (Hln : 0 < ln 2 < 2).
  { split.
    - rewrite <- ln_1. apply ln_increasing; lra.
    - rewrite <- (ln_exp 2) at 2. apply ln_increasing; [lra|].
      pose proof (exp_ineq1 2). lra. }
  assert (Hhalf : ln (1 / 2) = - ln 2).
  { replace (1 / 2) with (/ 2) by lra. apply ln_Rinv. lra. }
  rewrite Hhalf.
  set (a := -2.0 * - ln 2).
  assert (Ha : 0 <= a <= 2 * 2) by (subst a; lra).
  assert (Hs : 0 <= sqrt a <= 2).
  { split; [apply sqrt_pos|].
    rewrite <- (sqrt_square 2) by lra. apply sqrt_le_1_alt. lra. }
  pose proof (COS_bound (2.0 * PI * (1 / 2))) as [Hc0 Hc1].
  split; nra.
Qed.

(** With every draw 1/2 the first sampled band point is accepted. *)
Lemma halfSource_band_star :
  exists st, makeBandStars halfSource 800 600 flatBand 1 O = ([st], 7%nat).
Proof.
  assert (Hatt : exists st,
             bandAttempt halfSource 800 600 flatBand O = (Some st, 7%nat)).
  { unfold bandAttempt. cbv zeta. unfold bind at 1.
    rewrite rand_value, halfSource_draw.
    unfold bind at 1. rewrite halfSource_gaussian.
    pose proof half_gaussian_small as Hg.
    set (g := Math_sqrt (-2.0 * Math_log (1 / 2))
              * Math_cos (2.0 * PI * (1 / 2))) in *.
    clearbody g.
    rewrite hypot_800_600. unfold flatBand. cbn [angle width].
    unfold Math_cos, Math_sin. rewrite cos_0, sin_0.
    match goal with
    | |- exists st, (if ?c then _ else _) _ = _ =>
        assert (Hc : c = false)
    end.
    { unfold Rgtb. rewrite !orb_false_iff, !Rltb_false.
      destruct Hg as [Hg0 Hg1]. repeat split; lra. }
    rewrite Hc. unfold bind.
    repeat (rewrite rand_value; cbv beta iota zeta).
    unfold ret. eexists. reflexivity. }
  destruct Hatt as (st & Hatt). exists st.
  unfold makeBandStars, bind, makeBandStars_fuel.
  change (S (1 * 30)) with (S (S 29)).
  now rewrite (bandLoop_first_accept halfSource 800 600 flatBand 29 O 7 st Hatt).
Qed.

Lemma rand_and_randInt_ranges_witness :
  wholeBetween 205 230 (fst (randInt halfSource 205 230 O)).
Proof.
  assert (Hz : (205 <= 230)%Z) by lia.
  apply (proj2 (rand_and_randInt_ranges halfSource) 205%Z 230%Z O Hz).
  rewrite rand_value. cbn. lra.
Defined.

Lemma clamp_behaviour_witness : clamp 0.7 0.05 1 = 0.7.
Proof.
  apply (clamp_behaviour 0.7 0.05 1); lra.
Defined.

Lemma makeStars_fields_witness :
  exists a b,
    makeStars twoStarSource 800 600 2 0.2 1.0 O = ([a; b], 16%nat)
    /\ 0 <= s_x b <= 800 /\ 0 <= s_y b <= 600
    /\ 0.25 <= baseAlpha b <= 0.85.
Proof.
  assert (Hw : 0 <= 800) by lra. assert (Hh : 0 <= 600) by lra.
  eexists. eexists. split; [reflexivity|].
  destruct (proj2 (makeStars_fields twoStarSource 800 600 2 0.2 1.0 O
                     Hw Hh) _ (or_intror (or_introl eq_refl)))
    as (Hx & Hy & Hb & _).
  split; [exact Hx|]. split; [exact Hy | exact Hb].
Defined.

Lemma general_star_radius_bounds_witness :
  exists a b,
    fst (makeStars twoStarSource 800 600 2 0.2 1.0 O) = [a; b]
    /\ 0.3 <= s_r a <= 1.74.
Proof.
  eexists. eexists. split; [reflexivity|].
  apply (proj2 (general_star_radius_bounds twoStarSource) 800 600 2%nat O).
  left. reflexivity.
Defined.

Lemma band_star_fields_witness :
  exists st,
    fst (makeBandStars halfSource 800 600 flatBand 1 O) = [st]
    /\ 0.1 <= depth st <= 0.95 /\ 0.48 <= s_r st <= 3.96.
Proof.
  destruct halfSource_band_star as (st & Hrun).
  exists st. split; [now rewrite Hrun|].
  destruct (band_star_fields halfSource 800 600 flatBand 1 O st)
    as (_ & _ & Hd & _ & Hr & _).
  { cbn. lra. }
  { rewrite Hrun. now left. }
  split; [exact Hd | exact Hr].
Defined.

Lemma resize_reseeds_scene_witness :
  W (onResize halfSource 1 1200 800 sceneNoMeteor) = 1200.
Proof.
  assert (Hw : 0 <= 1200) by lra. assert (Hh : 0 <= 800) by lra.
  exact (proj1 (resize_reseeds_scene halfSource 1 1200 800 sceneNoMeteor
                  Hw Hh)).
Defined.

Lemma scene_stays_seeded_witness :
  120 <= width (milky (boot halfSource 1 bootEnv0)).
Proof.
  exact (proj1 (proj2 (scene_stays_seeded halfSource 1 _
                         (reach_boot halfSource 1 bootEnv0)))).
Defined.

Lemma spawned_meteor_fields_witness :
  500 <= life (fst (spawnMeteorGen halfSource 800 600 0 O)) <= 1100.
Proof.
  assert (Hw : 0 <= 800) by lra. assert (Hh : 0 <= 600) by lra.
  exact (proj1 (proj2 (proj2 (proj2
           (spawned_meteor_fields halfSource 800 600 0 O Hw Hh))))).
Defined.

Lemma spawn_position_and_margin_witness :
  Active 800 600 (fst (spawnMeteorGen halfSource 800 600 0 O)).
Proof.
  apply (spawn_position_and_margin halfSource 800 600 0 O); lra.
Defined.

Lemma stored_meteor_is_tracked_witness :
  exists m,
    meteor (step halfSource 1 (EvFrame spawnFrame)
              (boot halfSource 1 bootEnv0)) = Some m
    /\ 500 <= life m <= 1100.
Proof.
  destruct scene_after_spawn_holds_meteor as (m & Hm & _).
  exists m. split; [exact Hm|].
  exact (proj1 (stored_meteor_is_tracked halfSource 1 _ m
                  (reach_step halfSource 1 _ (EvFrame spawnFrame)
                     (reach_boot halfSource 1 bootEnv0)) Hm)).
Defined.

Lemma quietEvents_meteors_off : Forall meteorsOffEvent quietEvents.
Proof. unfold quietEvents. repeat constructor. Qed.

Lemma meteors_off_stays_empty_witness :
  meteor (steps halfSource 1 quietEvents
            (step halfSource 1 (EvToggleMeteors false) sceneLateMeteor))
  = None.
Proof.
  exact (proj1 (proj2 (meteors_off_stays_empty halfSource 1 sceneLateMeteor
                         quietEvents frameIn0 quietEvents_meteors_off))).
Defined.

Lemma sceneNoMeteor_due : spawnDue (f_clockMeteors frameIn0) sceneNoMeteor = true.
Proof.
  apply spawnDue_ready; [reflexivity | reflexivity | cbn; lra].
Qed.

Lemma spawns_are_spaced_witness :
  spawnCalls (steps halfSource 1 [EvFrame frameIn0; EvClick]
                (fst (frame halfSource 1 frameIn0 sceneNoMeteor)))
  = S (spawnCalls sceneNoMeteor).
Proof.
  assert (Hall : Forall (clockBefore (f_clockMeteors frameIn0 + 3800))
                   [EvFrame frameIn0; EvClick]).
  { repeat constructor. cbn. lra. }
  exact (proj1 (proj2 (proj2
           (spawns_are_spaced halfSource 1 sceneNoMeteor frameIn0
              [EvFrame frameIn0; EvClick] sceneNoMeteor_due Hall)))).
Defined.

Lemma twinkle_never_brightens_witness :
  starAlpha true 3 sampleStar <= baseAlpha sampleStar.
Proof.
  apply (twinkle_never_brightens true 3 sampleStar). cbn. lra.
Defined.

Lemma star_parallax_shift_bounded_witness :
  exists x y rest,
    map discCentre (drawStar true driftingParallax 3 0.8 sampleStar)
    = Some (x, y) :: rest
    /\ Rabs (x - s_x sampleStar) <= 14 * 0.8 * (1 - depth sampleStar).
Proof.
  destruct (star_parallax_shift_bounded true driftingParallax 3 0.8
              sampleStar) as (x & y & rest & E & Hx & _).
  - unfold currentInRange, inRange. cbn. lra.
  - cbn. lra.
  - lra.
  - exists x, y, rest. now split.
Defined.

Lemma pointer_target_normalised_witness :
  targetInRange (parallax (onPointer moveInside sceneNoMeteor)).
Proof.
  apply (pointer_target_normalised moveInside sceneNoMeteor); cbn; lra.
Defined.

Lemma band_star_falloff_witness :
  falloff flatBand 100 <= falloff flatBand 10.
Proof.
  apply (proj1 (proj2 (band_star_falloff halfSource)) flatBand 10 100); cbn; lra.
Defined.
